(** * CampaignCentral: CSV ingestion and field mapping

    A shallow embedding of the import pipeline of [server/routes.ts]
    (field detection, mapping validation, row transform, batched
    persistence, the encrypt/decrypt helpers), of the client-side parser
    of [client/src/lib/csv-utils.ts] and of the store of
    [server/storage.ts], with the properties the specification states
    about them.

    JavaScript strings are modelled as [string], one character per code
    unit (the code units below U+0100); objects used as dictionaries are
    [gmap string _], the map of their own properties, read and written
    with [getProperty] and [setProperty]. *)

From Stdlib Require Import ZArith List String Ascii Bool Lia.
From stdpp Require Import base option list strings gmap fin_maps.
From Equations Require Import Equations.

Local Open Scope string_scope.

(** ** String primitives *)

Module JsString.

(** [String.prototype.toLowerCase] on one code unit below U+0100: the
    letters A-Z and the Latin-1 capitals U+00C0-U+00DE (U+00D7, the
    multiplication sign, apart) move up by 32; the rest is unchanged. *)
Definition lowerChar (c : ascii) : ascii :=
  let n := nat_of_ascii c in
  if ((65 <=? n)%nat && (n <=? 90)%nat)
     || ((192 <=? n)%nat && (n <=? 222)%nat && negb (n =? 215)%nat)
  then ascii_of_nat (n + 32) else c.

Fixpoint toLowerCase (s : string) : string :=
  match s with
  | EmptyString => EmptyString
  | String c s' => String (lowerChar c) (toLowerCase s')
  end.

(** White space and line terminators removed by [trim]: TAB, LF, VT,
    FF, CR, SPACE, and NBSP (U+00A0). *)
Definition isWhiteSpace (c : ascii) : bool :=
  let n := nat_of_ascii c in
  ((9 <=? n)%nat && (n <=? 13)%nat) || (n =? 32)%nat || (n =? 160)%nat.

Fixpoint trimStart (s : string) : string :=
  match s with
  | EmptyString => EmptyString
  | String c s' => if isWhiteSpace c then trimStart s' else s
  end.

(** [trimEnd] drops the trailing white space: a character is kept when
    it is not white space or when something is kept after it. *)
Fixpoint trimEnd (s : string) : string :=
  match s with
  | EmptyString => EmptyString
  | String c s' =>
      match trimEnd s' with
      | EmptyString => if isWhiteSpace c then EmptyString else String c EmptyString
      | t => String c t
      end
  end.

Definition trim (s : string) : string := trimEnd (trimStart s).

Fixpoint startsWith (s p : string) : bool :=
  match p, s with
  | EmptyString, _ => true
  | String _ _, EmptyString => false
  | String a p', String b s' => if Ascii.eqb a b then startsWith s' p' else false
  end.

(** [s.includes(p)]: [p] occurs in [s] as a contiguous substring. *)
Fixpoint includes (s p : string) : bool :=
  startsWith s p ||
  match s with
  | EmptyString => false
  | String _ s' => includes s' p
  end.

(** A string is truthy when it is not empty. *)
Definition truthy (s : string) : bool :=
  match s with EmptyString => false | String _ _ => true end.

(** [s.split(sep)] for a one-character separator: never empty, the
    pieces between the occurrences of [sep]. *)
Fixpoint split (sep : ascii) (s : string) : list string :=
  match s with
  | EmptyString => [EmptyString]
  | String c s' =>
      if Ascii.eqb c sep then EmptyString :: split sep s'
      else match split sep s' with
           | piece :: pieces => String c piece :: pieces
           | [] => [String c EmptyString]
           end
  end.

(** [s.replace] with the global double-quote pattern and an empty
    replacement: every double quote (code unit 34) removed. *)
Fixpoint stripQuotes (s : string) : string :=
  match s with
  | EmptyString => EmptyString
  | String c s' =>
      if Ascii.eqb c (ascii_of_nat 34) then stripQuotes s' else String c (stripQuotes s')
  end.

End JsString.
Import JsString.

(** ** Plain objects

    A row is a plain object ([{}] filled by assignments): the map holds
    its own properties, and a read that finds no own property continues
    in [Object.prototype]. *)

(** The properties of [Object.prototype]: eleven functions and the
    accessor [__proto__]. *)
Definition objectPrototypeKeys : list string :=
  [ "constructor"; "__defineGetter__"; "__defineSetter__"; "hasOwnProperty";
    "__lookupGetter__"; "__lookupSetter__"; "isPrototypeOf"; "propertyIsEnumerable";
    "toString"; "valueOf"; "__proto__"; "toLocaleString" ].

(** What [row[key]] can be, [undefined] apart: a string of the row, or
    the member [name] of [Object.prototype] (a function; for [__proto__]
    the prototype object itself). *)
Inductive cellValue :=
| CellString (s : string)
| PrototypeMember (name : string).

(** [obj[key]], with [None] for [undefined]. *)
Definition getProperty (obj : gmap string string) (key : string) : option cellValue :=
  match obj !! key with
  | Some value => Some (CellString value)
  | None =>
      if bool_decide (key ∈ objectPrototypeKeys) then Some (PrototypeMember key) else None
  end.

(** [obj[key] = value]: the assignment to [__proto__] runs the setter of
    [Object.prototype], which creates no property (a string is ignored;
    an object or a function would become the prototype of [obj], which
    nothing reads where this happens). *)
Definition setProperty {A} (key : string) (value : A) (obj : gmap string A) : gmap string A :=
  if String.eqb key "__proto__" then obj else <[key := value]> obj.

(** ** Field detection ([detectFields], and [detectCSVFields] on the client) *)

(** The [fieldPatterns] table, in the order of [Object.entries]. *)
Definition fieldPatterns : list (string * list string) :=
  [ ("firstName", ["first name"; "firstname"; "fname"; "first_name"]);
    ("lastName", ["last name"; "lastname"; "lname"; "last_name"]);
    ("title", ["title"; "job title"; "position"; "role"; "job_title"]);
    ("company", ["company"; "organization"; "employer"; "company_name"]);
    ("email", ["email"; "email address"; "e-mail"; "email_address"]);
    ("mobilePhone", ["mobile"; "mobile phone"; "cell"; "cell phone"; "mobile_phone"]);
    ("otherPhone", ["phone"; "other phone"; "telephone"; "other_phone"]);
    ("corporatePhone", ["corporate phone"; "work phone"; "office phone"; "corporate_phone"]);
    ("personLinkedinUrl", ["linkedin"; "person linkedin"; "personal linkedin"; "person_linkedin_url"]);
    ("companyLinkedinUrl", ["company linkedin"; "company_linkedin_url"]);
    ("website", ["website"; "url"; "web"; "site"]) ].

(** The 11 standard fields: the keys of [fieldMappingSchema], which are
    also the keys of [fieldPatterns]. *)
Definition standardFields : list string :=
  [ "firstName"; "lastName"; "title"; "company"; "email"; "mobilePhone";
    "otherPhone"; "corporatePhone"; "personLinkedinUrl"; "companyLinkedinUrl";
    "website" ].

Section Detection.

(** [normalize header] stands for [header.toLowerCase().trim()]. *)
Variable normalize : string -> string.

(** [patterns.some(pattern => normalizedHeader.includes(pattern))] *)
Definition matchesField (patterns : list string) (header : string) : bool :=
  existsb (fun pattern => includes (normalize header) pattern) patterns.

(** The inner [Object.entries(fieldPatterns).forEach] for one header. *)
Definition scanHeader (mapping : gmap string string) (header : string)
  : gmap string string :=
  foldl (fun mapping '(field, patterns) =>
           if matchesField patterns header
           then <[field := header]> mapping
           else mapping)
        mapping fieldPatterns.

(** The outer [headers.forEach], from the empty mapping. *)
Definition detectFieldsWith (headers : list string) : gmap string string :=
  foldl scanHeader ∅ headers.

End Detection.

Definition normalizeHeader (header : string) : string := trim (toLowerCase header).

Definition detectFields (headers : list string) : gmap string string :=
  detectFieldsWith normalizeHeader headers.

(** The client's [detectCSVFields] has the same table and the same body. *)
Definition detectCSVFields (headers : list string) : gmap string string :=
  detectFieldsWith normalizeHeader headers.

(** The two header lists of the specification's detection table. *)
Definition contactHeaders : list string :=
  ["First Name"; "Last Name"; "E-mail"; "Mobile Phone"; "LinkedIn"].

Definition companyHeaders : list string :=
  ["Company"; "Company LinkedIn Url"].

(** ** Mapping validation ([fieldMappingSchema.parse]) *)

#[local] Unset Elimination Schemes.
(** What [JSON.parse] returns (of a number, the integer part: only the
    kind of a value matters below). *)
Inductive jsonValue :=
| JNull
| JBool (b : bool)
| JNumber (n : Z)
| JString (s : string)
| JArray (items : list jsonValue)
| JObject (members : gmap string jsonValue).
#[local] Set Elimination Schemes.

(** [z.string().optional()] on the member [input[field]]: an absent member
    is accepted and stays absent, a string is accepted, anything else is
    an issue ([None]). *)
Definition parseOptionalString (member : option jsonValue) : option (option string) :=
  match member with
  | None => Some None
  | Some (JString s) => Some (Some s)
  | Some _ => None
  end.

(** [z.object({...})] over the members of an object: every key of the
    shape is parsed with its schema; keys outside the shape are not
    looked at and are left out of the result (zod's default for
    [z.object]: neither [.strict()] nor [.passthrough()] is used).
    [None] stands for the thrown [ZodError]. *)
Definition parseShape (input : gmap string jsonValue) : option (gmap string string) :=
  foldr (fun field result =>
           parsed ← result;
           value ← parseOptionalString (input !! field);
           Some (match value with
                 | Some s => <[field := s]> parsed
                 | None => parsed
                 end))
        (Some ∅) standardFields.

(** [fieldMappingSchema.parse(value)]: a value that is not an object is
    refused. *)
Definition fieldMappingSchema_parse (value : jsonValue) : option (gmap string string) :=
  match value with
  | JObject members => parseShape members
  | _ => None
  end.

(** ** Row transform (the [rows.map] callback of the upload route) *)

(** [row[csvColumn]] is truthy: a string that is not empty, or a member
    of [Object.prototype] (functions and objects are truthy). *)
Definition cellTruthy (cell : option cellValue) : bool :=
  match cell with
  | Some (CellString value) => truthy value
  | Some (PrototypeMember _) => true
  | None => false
  end.

(** One step of [Object.entries(fieldMapping).forEach]:
    [if (csvColumn && csvColumn !== 'skip' && row[csvColumn])
       contactData[standardField] = row[csvColumn]]. *)
Definition mapField (row : gmap string string) (standardField csvColumn : string)
    (contactData : gmap string cellValue) : gmap string cellValue :=
  if truthy csvColumn && negb (String.eqb csvColumn "skip")
     && cellTruthy (getProperty row csvColumn)
  then match getProperty row csvColumn with
       | Some value => setProperty standardField value contactData
       | None => contactData
       end
  else contactData.

(** [contactData] after the [forEach]. *)
Definition transformRow (fieldMapping row : gmap string string) : gmap string cellValue :=
  map_fold (mapField row) ∅ fieldMapping.

(** ** Encryption utilities ([encrypt], [decrypt]) *)

Section Encryption.

(** [buffer.toString('hex')] *)
Variable toHex : string -> string.

(** [crypto.createCipher(ALGORITHM, ENCRYPTION_KEY)], then
    [update(text, 'utf8', 'hex') + final('hex')]. *)
Variable cipherHex : string -> string.

(** [crypto.createDecipher(ALGORITHM, ENCRYPTION_KEY)], then
    [update(encrypted, 'hex', 'utf8') + final('utf8')]; [None] when one
    of the calls throws. *)
Variable decipherUtf8 : string -> option string.

(** [encrypt(text)], with [iv] the bytes drawn by
    [crypto.randomBytes(16)]. *)
Definition encrypt (iv : string) (text : string) : string :=
  toHex iv ++ ":" ++ cipherHex text.

(** [decrypt(encryptedData)]: the first piece of the split is decoded
    into [iv], which nothing reads; the second is deciphered.  When the
    decipher throws (or there is no second piece, so that [update]
    receives [undefined]) the [catch] returns the raw input. *)
Definition decrypt (encryptedData : string) : string :=
  match split ":" encryptedData with
  | ivHex :: encrypted :: _ =>
      match decipherUtf8 encrypted with
      | Some decrypted => decrypted
      | None => encryptedData
      end
  | _ => encryptedData
  end.

End Encryption.

(** The hexadecimal strings: what [toString('hex')] and the cipher's
    ['hex'] output encoding produce. *)
Definition isHexDigit (c : ascii) : bool :=
  let n := nat_of_ascii c in
  ((48 <=? n)%nat && (n <=? 57)%nat)
  || ((97 <=? n)%nat && (n <=? 102)%nat)
  || ((65 <=? n)%nat && (n <=? 70)%nat).

Fixpoint isHex (s : string) : bool :=
  match s with
  | EmptyString => true
  | String c s' => isHexDigit c && isHex s'
  end.

(** ** The store ([DatabaseStorage] over the [campaigns] and [contacts]
    tables) *)

Record InsertCampaign := {
  ic_name : string;
  ic_fileName : string;
  ic_recordCount : nat;
  ic_fileSize : nat;
  ic_fieldMapping : gmap string string
}.

Record Campaign := {
  c_id : nat;
  c_name : string;
  c_fileName : string;
  c_uploadDate : nat;
  c_recordCount : nat;
  c_fileSize : nat;
  c_status : string;
  c_fieldMapping : gmap string string
}.

(** A contact to insert: the owning campaign, the blob, and the standard
    fields that are set (the other columns are NULL). *)
Record InsertContact := {
  campaignId : nat;
  encryptedData : string;
  contactFields : gmap string string
}.

Record Contact := {
  contactId : nat;
  contactRow : InsertContact
}.

(** The database: the two tables, their [serial] counters and the clock
    behind [defaultNow()].  [insertCalls] records the arguments of the
    calls of [createContacts], in order.  The operations below are the
    successful runs of the queries. *)
Record Store := {
  campaigns : list Campaign;
  contacts : list Contact;
  campaignSerial : nat;
  contactSerial : nat;
  now : nat;
  insertCalls : list (list InsertContact)
}.

(** [select().from(campaigns).where(eq(campaigns.name, name))], first row. *)
Definition getCampaignByName (name : string) (db : Store) : option Campaign :=
  find (fun campaign => String.eqb (c_name campaign) name) (campaigns db).

Definition createCampaign (insertCampaign : InsertCampaign) (db : Store) : Campaign * Store :=
  let campaign :=
    {| c_id := campaignSerial db;
       c_name := ic_name insertCampaign;
       c_fileName := ic_fileName insertCampaign;
       c_uploadDate := now db;
       c_recordCount := ic_recordCount insertCampaign;
       c_fileSize := ic_fileSize insertCampaign;
       c_status := "active";
       c_fieldMapping := ic_fieldMapping insertCampaign |} in
  (campaign,
   {| campaigns := (campaigns db ++ [campaign])%list;
      contacts := contacts db;
      campaignSerial := S (campaignSerial db);
      contactSerial := contactSerial db;
      now := now db;
      insertCalls := insertCalls db |}).

(** [createContacts] when the [insert] returns: an empty list returns at
    once; otherwise the rows are inserted in the order given and get
    consecutive ids. *)
Definition createContacts (insertContacts : list InsertContact) (db : Store)
  : list Contact * Store :=
  let inserted :=
    imap (fun k row => {| contactId := contactSerial db + k; contactRow := row |})
         insertContacts in
  (inserted,
   {| campaigns := campaigns db;
      contacts := (contacts db ++ inserted)%list;
      campaignSerial := campaignSerial db;
      contactSerial := contactSerial db + length insertContacts;
      now := now db;
      insertCalls := (insertCalls db ++ [insertContacts])%list |}).

(** [createContacts] when the [insert] throws: the call was made, no row
    is stored. *)
Definition createContactsThrows (insertContacts : list InsertContact) (db : Store) : Store :=
  {| campaigns := campaigns db;
     contacts := contacts db;
     campaignSerial := campaignSerial db;
     contactSerial := contactSerial db;
     now := now db;
     insertCalls := (insertCalls db ++ [insertContacts])%list |}.

(** ** The Node.js runtime

    What the routes take from the platform, from npm packages and from
    the database server, whose code is not part of the repository. *)

(** The events of the [csv-parser] stream that [parseCSV] listens to.  A
    row is given by its own properties in the order in which
    [Object.keys] lists them (an object has every key once). *)
Inductive csvEvent :=
| EvHeaders (headerList : list string)
| EvData (row : list (string * string))
| EvEnd
| EvError (reason : string).

Class NodeRuntime := {
  (** [Readable.from(text).pipe(csv())]: the events emitted for a text. *)
  csvParser : string -> list csvEvent;
  (** the cipher of [encrypt]: whether [createCipher], [update] or
      [final] throws on a text ([createCipher] does not exist any more
      in recent versions of Node.js) *)
  cipherThrows : string -> bool;
  (** and its hexadecimal output when they return *)
  aesCipherHex : string -> string;
  (** [crypto.randomBytes(16)]: the bytes drawn by the [n]-th call. *)
  randomBytes : nat -> string;
  (** [buffer.toString('hex')] *)
  bufferToHex : string -> string;
  (** [JSON.stringify] of the [contactData] of a row. *)
  jsonStringify : gmap string cellValue -> string;
  (** whether the [insert] of [createContacts] throws for a batch in a
      state of the database (a value that the server refuses, a lost
      connection) *)
  insertThrows : Store -> list InsertContact -> bool
}.

(** ** CSV parsing *)

Inductive promise (A : Type) :=
| Resolved (value : A)
| Rejected (reason : string)
| Pending.
Arguments Resolved {A} value.
Arguments Rejected {A} reason.
Arguments Pending {A}.

Record ParsedCsv := {
  headers : list string;
  rows : list (gmap string string)
}.

(** *** Server: [parseCSV] *)

(** The variables captured by the listeners of [parseCSV]. *)
Record parserState := {
  ps_headers : list string;
  ps_rows : list (gmap string string);
  ps_isFirstRow : bool
}.

(** [Object.keys(row)] of a row of the stream, and the row as the map of
    its own properties. *)
Definition objectKeys (row : list (string * string)) : list string := row.*1.

Definition ownProperties (row : list (string * string)) : gmap string string :=
  list_to_map row.

Definition parserInit : parserState :=
  {| ps_headers := []; ps_rows := []; ps_isFirstRow := true |}.

(** [.on('headers', headerList => headers.push(...headerList))] *)
Definition onHeaders (headerList : list string) (s : parserState) : parserState :=
  {| ps_headers := (ps_headers s ++ headerList)%list;
     ps_rows := ps_rows s;
     ps_isFirstRow := ps_isFirstRow s |}.

(** [.on('data', row => ...)] *)
Definition onData (row : list (string * string)) (s : parserState) : parserState :=
  let headers' :=
    if ps_isFirstRow s && (length (ps_headers s) =? 0)%nat
    then (ps_headers s ++ objectKeys row)%list
    else ps_headers s in
  {| ps_headers := headers';
     ps_rows := (ps_rows s ++ [ownProperties row])%list;
     ps_isFirstRow := false |}.

(** The promise of [parseCSV] over the events of the stream: ['end']
    resolves it with the two arrays, ['error'] rejects it. *)
Fixpoint parseCSVStream (events : list csvEvent) (s : parserState) : promise ParsedCsv :=
  match events with
  | [] => Pending
  | EvHeaders headerList :: events' => parseCSVStream events' (onHeaders headerList s)
  | EvData row :: events' => parseCSVStream events' (onData row s)
  | EvEnd :: _ => Resolved {| headers := ps_headers s; rows := ps_rows s |}
  | EvError reason :: _ => Rejected reason
  end.

Definition parseCSV {node : NodeRuntime} (buffer : string) : promise ParsedCsv :=
  parseCSVStream (csvParser buffer) parserInit.

(** *** Client: [parseCSVFile], on the text that the [FileReader] hands
    to [onload] *)

Definition newline : ascii := ascii_of_nat 10.

(** [s.trim().replace(quote, '')] *)
Definition cleanCell (s : string) : string := stripQuotes (trim s).

(** [values[index] || ''] *)
Definition cellOrEmpty (values : list string) (index : nat) : string :=
  match values !! index with
  | Some value => value
  | None => ""
  end.

(** [headers.forEach((header, index) => row[header] = values[index] || '')] *)
Definition buildRow (headers : list string) (values : list string) : gmap string string :=
  foldl (fun row '(index, header) => setProperty header (cellOrEmpty values index) row)
        ∅ (imap (fun index header => (index, header)) headers).

Definition parseCSVFile (csv : string) : promise ParsedCsv :=
  let lines := filter (fun line => truthy (trim line) = true) (split newline csv) in
  match lines with
  | [] => Rejected "CSV file is empty"
  | headerLine :: dataLines =>
      let headers := cleanCell <$> split "," headerLine in
      let rows := (fun line => buildRow headers (cleanCell <$> split "," line)) <$> dataLines in
      Resolved {| headers := headers; rows := rows |}
  end.

(** ** The routes *)

Record UploadedFile := {
  buffer : string;
  originalname : string;
  size : nat
}.

(** The multipart request of [POST /api/campaigns]: the uploaded file if
    any, the [campaignName] field (empty when it is missing) and the
    [fieldMapping] field after [JSON.parse] ([None] when [JSON.parse]
    throws). *)
Record UploadRequest := {
  file : option UploadedFile;
  campaignName : string;
  fieldMappingRaw : option jsonValue
}.

Inductive Response :=
| Uploaded (campaign : Campaign) (contactCount : nat)
| Status400 (message : string)
| Status500 (message : string)
| NoResponse.

(** What the [catch] of a route tells apart: a [ZodError], or any other
    error. *)
Inductive thrown :=
| ZodError
| OtherError.

Inductive outcome (A : Type) :=
| Returned (value : A)
| Threw (error : thrown).
Arguments Returned {A} value.
Arguments Threw {A} error.

(** [array.map(f)] with a callback that may throw: the calls are made in
    the order of the array, and the first error ends the [map]. *)
Fixpoint collect {A} (results : list (outcome A)) : outcome (list A) :=
  match results with
  | [] => Returned []
  | Threw error :: _ => Threw error
  | Returned value :: results' =>
      match collect results' with
      | Returned values => Returned (value :: values)
      | Threw error => Threw error
      end
  end.

(** The body of the answer of [POST /api/csv/parse]. *)
Record ParseSummary := {
  sum_headers : list string;
  sum_detectedMapping : gmap string string;
  sum_rowCount : nat
}.

Definition batchSize : nat := 100.

(** [array.slice(start, stop)] for [start <= stop]. *)
Definition slice {A} (start stop : nat) (l : list A) : list A :=
  take (stop - start) (drop start l).

(** [for (let i = 0; i < contactsData.length; i += batchSize)
      await storage.createContacts(contactsData.slice(i, i + batchSize))],
    from the index [i], in a run in which no call throws. *)
Equations saveInBatches (contactsData : list InsertContact) (i : nat) (db : Store)
  : Store by wf (length contactsData - i) lt :=
  saveInBatches contactsData i db with decide (i < length contactsData) := {
    | left _ =>
        saveInBatches contactsData (i + batchSize)
          (createContacts (slice i (i + batchSize) contactsData) db).2;
    | right _ => db }.
Next Obligation. unfold batchSize. lia. Qed.

(** The text columns of [insertContactSchema] over the members of an
    object: an absent member stays absent (the columns are nullable), a
    string is kept, anything else is an issue ([None]). *)
Definition parseContactFields (input : gmap string cellValue) : option (gmap string string) :=
  foldr (fun field result =>
           parsed ← result;
           match input !! field with
           | None => Some parsed
           | Some (CellString value) => Some (<[field := value]> parsed)
           | Some (PrototypeMember _) => None
           end)
        (Some ∅) standardFields.

(** [insertContactSchema.parse({ campaignId: id, encryptedData: blob,
    ...contactData })]: a member of [contactData] named [campaignId] or
    [encryptedData] replaces the one written before the spread;
    [campaignId] must be a number and [encryptedData] a string; the keys
    that are no column are left out.  [None] stands for the thrown
    [ZodError]. *)
Definition insertContactSchema_parse (id : nat) (blob : string)
    (contactData : gmap string cellValue) : option InsertContact :=
  match contactData !! "campaignId" with
  | Some _ => None
  | None =>
      encrypted ← match contactData !! "encryptedData" with
                  | None => Some blob
                  | Some (CellString value) => Some value
                  | Some (PrototypeMember _) => None
                  end;
      fields ← parseContactFields contactData;
      Some {| campaignId := id; encryptedData := encrypted; contactFields := fields |}
  end.

Section Routes.
Context {node : NodeRuntime}.

(** The callback of [rows.map] on the [index]-th row: the transform,
    [encrypt(JSON.stringify(contactData))], then
    [insertContactSchema.parse]. *)
Definition buildContact (campaign : Campaign) (fieldMapping : gmap string string)
    (index : nat) (row : gmap string string) : outcome InsertContact :=
  let contactData := transformRow fieldMapping row in
  let text := jsonStringify contactData in
  if cipherThrows text then Threw OtherError
  else
    match insertContactSchema_parse (c_id campaign)
            (encrypt bufferToHex aesCipherHex (randomBytes index) text) contactData with
    | Some contact => Returned contact
    | None => Threw ZodError
    end.

(** [rows.map(row => ...)] *)
Definition buildContacts (campaign : Campaign) (fieldMapping : gmap string string)
    (rows : list (gmap string string)) : outcome (list InsertContact) :=
  collect (imap (buildContact campaign fieldMapping) rows).

(** The batch loop in the route: a call of [createContacts] that throws
    ends the loop; the batches saved before it stay saved.  The result
    tells whether the loop ran to its end. *)
Equations saveContacts (contactsData : list InsertContact) (i : nat) (db : Store)
  : bool * Store by wf (length contactsData - i) lt :=
  saveContacts contactsData i db with decide (i < length contactsData) := {
    | left _ =>
        if insertThrows db (slice i (i + batchSize) contactsData)
        then (false, createContactsThrows (slice i (i + batchSize) contactsData) db)
        else saveContacts contactsData (i + batchSize)
               (createContacts (slice i (i + batchSize) contactsData) db).2;
    | right _ => (true, db) }.
Next Obligation. unfold batchSize. lia. Qed.

(** [POST /api/campaigns]: the campaign row is inserted before the
    contacts are built and saved, and the [catch] of the route undoes
    nothing. *)
Definition uploadCampaign (req : UploadRequest) (db : Store) : Response * Store :=
  match file req with
  | None => (Status400 "No CSV file provided", db)
  | Some f =>
      if negb (truthy (campaignName req))
      then (Status400 "Campaign name is required", db)
      else
        match fieldMappingRaw req with
        | None => (Status500 "Failed to upload campaign", db)
        | Some raw =>
            match fieldMappingSchema_parse raw with
            | None => (Status400 "Invalid data format", db)
            | Some fieldMapping =>
                match getCampaignByName (campaignName req) db with
                | Some _ => (Status400 "Campaign name already exists", db)
                | None =>
                    match parseCSV (buffer f) with
                    | Rejected _ => (Status500 "Failed to upload campaign", db)
                    | Pending => (NoResponse, db)
                    | Resolved parsed =>
                        let '(campaign, db1) :=
                          createCampaign
                            {| ic_name := campaignName req;
                               ic_fileName := originalname f;
                               ic_recordCount := length (rows parsed);
                               ic_fileSize := size f;
                               ic_fieldMapping := fieldMapping |} db in
                        match buildContacts campaign fieldMapping (rows parsed) with
                        | Threw ZodError => (Status400 "Invalid data format", db1)
                        | Threw OtherError => (Status500 "Failed to upload campaign", db1)
                        | Returned contactsData =>
                            match saveContacts contactsData 0 db1 with
                            | (true, db2) => (Uploaded campaign (length (rows parsed)), db2)
                            | (false, db2) => (Status500 "Failed to upload campaign", db2)
                            end
                        end
                    end
                end
            end
        end
  end.

(** [POST /api/csv/parse] *)
Definition parseUpload (upload : option UploadedFile) : ParseSummary + Response :=
  match upload with
  | None => inr (Status400 "No CSV file provided")
  | Some f =>
      match parseCSV (buffer f) with
      | Resolved parsed =>
          inl {| sum_headers := headers parsed;
                 sum_detectedMapping := detectFields (headers parsed);
                 sum_rowCount := length (rows parsed) |}
      | Rejected _ => inr (Status500 "Failed to parse CSV file")
      | Pending => inr NoResponse
      end
  end.

End Routes.

(** ** Authentication *)

(** *** Server: [requireAuth] and [POST /api/auth] *)

(** The first [n] characters dropped. *)
Fixpoint dropChars (n : nat) (s : string) : string :=
  match n, s with
  | O, _ => s
  | S n', String _ s' => dropChars n' s'
  | S _, EmptyString => EmptyString
  end.

(** [s.replace(pattern, '')] for a string pattern: the first occurrence
    of [pattern], if there is one, is removed. *)
Fixpoint removeFirst (pattern s : string) : string :=
  if startsWith s pattern then dropChars (String.length pattern) s
  else match s with
       | EmptyString => EmptyString
       | String c s' => String c (removeFirst pattern s')
       end.

(** [process.env.ACCESS_PASSWORD || 'demo123'] *)
Definition validPassword (accessPassword : option string) : string :=
  match accessPassword with
  | Some password => if truthy password then password else "demo123"
  | None => "demo123"
  end.

(** [requireAuth]: [true] when [next()] is called, [false] for the 401
    answer.  Without the header, [password] is [undefined], which is not
    a string. *)
Definition requireAuth (accessPassword : option string) (authorization : option string) : bool :=
  match authorization with
  | Some header => String.eqb (removeFirst "Bearer " header) (validPassword accessPassword)
  | None => false
  end.

(** [POST /api/auth]: the token of the answer, or [None] for the 401. *)
Definition authRoute (accessPassword : option string) (password : option string) : option string :=
  match password with
  | Some given => if String.eqb given (validPassword accessPassword) then Some given else None
  | None => None
  end.

(** *** Client: the token store of [lib/auth.ts], in a browser *)

(** The module variable [authToken] and the [localStorage] of the page. *)
Record TokenStore := {
  authToken : option string;
  localStorage : gmap string string
}.

Definition setAuthToken (token : string) (st : TokenStore) : TokenStore :=
  {| authToken := Some token;
     localStorage := <["auth_token" := token]> (localStorage st) |}.

(** [getAuthToken]: a truthy cached token is returned; otherwise the
    cache is filled from [localStorage] (with [null] when the item is
    absent) and returned. *)
Definition getAuthToken (st : TokenStore) : option string * TokenStore :=
  match authToken st with
  | Some token =>
      if truthy token then (Some token, st)
      else (localStorage st !! "auth_token",
            {| authToken := localStorage st !! "auth_token";
               localStorage := localStorage st |})
  | None =>
      (localStorage st !! "auth_token",
       {| authToken := localStorage st !! "auth_token";
          localStorage := localStorage st |})
  end.

Definition clearAuthToken (st : TokenStore) : TokenStore :=
  {| authToken := None; localStorage := delete "auth_token" (localStorage st) |}.

(** [!!getAuthToken()] *)
Definition isAuthenticated (st : TokenStore) : bool * TokenStore :=
  let '(token, st') := getAuthToken st in
  (match token with Some t => truthy t | None => false end, st').

(** The header that the pages send: the template [Bearer ${token}],
    where a [null] token prints as [null]. *)
Definition authorizationHeader (token : option string) : string :=
  "Bearer " ++ match token with Some t => t | None => "null" end.

(** ** File checks *)

(** [s.endsWith(suffix)]: some tail of [s] is [suffix]. *)
Fixpoint endsWith (s suffix : string) : bool :=
  String.eqb s suffix ||
  match s with
  | EmptyString => false
  | String _ s' => endsWith s' suffix
  end.

(** The [fileFilter] of the multer upload: [true] for [cb(null, true)]. *)
Definition fileFilter (mimetype originalname : string) : bool :=
  String.eqb mimetype "text/csv" || endsWith originalname ".csv".

(** [10 * 1024 * 1024] *)
Definition maxFileSize : N := 10 * 1024 * 1024.

(** The client's [validateCSVFile(file)]: [None] for [{ valid: true }],
    the error otherwise. *)
Definition validateCSVFile (name type : string) (fileSize : N) : option string :=
  if negb (endsWith (toLowerCase name) ".csv") && negb (String.eqb type "text/csv")
  then Some "Please select a CSV file"
  else if (maxFileSize <? fileSize)%N
       then Some "File size must be less than 10MB"
       else None.

(** [handleFileSelect] and [handleDrop] of the upload dialog: the file is
    taken when its type is [text/csv], and the campaign name is proposed
    from the file name. *)
Definition handleFileSelect (name type : string) : option string :=
  if String.eqb type "text/csv" then Some (removeFirst ".csv" name) else None.

(** ** The mapping of the upload dialog *)

(** [updateFieldMapping(field, value)]: the two sentinels store
    [undefined] under the key, which reads back, tests and serializes
    like an absent key. *)
Definition updateFieldMapping (field value : string) (prev : gmap string string)
  : gmap string string :=
  if String.eqb value "skip" || String.eqb value "none"
  then delete field prev
  else <[field := value]> prev.

(** What the server reads from the [fieldMapping] form field:
    [JSON.parse(JSON.stringify(fieldMapping))], an object of strings. *)
Definition mappingToJson (fieldMapping : gmap string string) : jsonValue :=
  JObject (JString <$> fieldMapping).

(** ** The other operations of the store *)

(** [eq(contacts.campaignId, campaignId)] on a row. *)
Definition ownedBy (targetId : nat) (contact : Contact) : bool :=
  (campaignId (contactRow contact) =? targetId)%nat.

(** [getCampaignById]: the first row with the id. *)
Definition getCampaignById (targetId : nat) (db : Store) : option Campaign :=
  find (fun campaign => (c_id campaign =? targetId)%nat) (campaigns db).

(** [deleteCampaign]: the campaign rows with the id are deleted, and with
    them the contacts that reference the id ([onDelete: "cascade"] on
    [contacts.campaign_id]). *)
Definition deleteCampaign (targetId : nat) (db : Store) : Store :=
  {| campaigns := List.filter (fun campaign => negb (c_id campaign =? targetId)%nat) (campaigns db);
     contacts := List.filter (fun contact => negb (ownedBy targetId contact)) (contacts db);
     campaignSerial := campaignSerial db;
     contactSerial := contactSerial db;
     now := now db;
     insertCalls := insertCalls db |}.

(** [getContactsByCampaignId(campaignId, limit, offset)]: the rows of the
    campaign in the order of the table, [offset] of them skipped and at
    most [limit] returned. *)
Definition getContactsByCampaignId (targetId limit offset : nat) (db : Store) : list Contact :=
  take limit (drop offset (List.filter (ownedBy targetId) (contacts db))).

Definition getContactsCountByCampaignId (targetId : nat) (db : Store) : nat :=
  length (List.filter (ownedBy targetId) (contacts db)).

(** [searchContactsInCampaign]: the query is a parameter that the select
    does not use; the first 100 rows of the campaign. *)
Definition searchContactsInCampaign (targetId : nat) (searchQuery : string) (db : Store)
  : list Contact :=
  take 100 (List.filter (ownedBy targetId) (contacts db)).

(** ** [GET /api/campaigns/:id/contacts] *)

(** A contact of the answer: every standard field is a string, empty
    when the column is null or empty. *)
Record ProcessedContact := {
  pc_id : nat;
  pc_campaignId : nat;
  pc_fields : gmap string string
}.

(** [contact.field || ''] *)
Definition fieldOrEmpty (fields : gmap string string) (field : string) : string :=
  match fields !! field with
  | Some value => value
  | None => ""
  end.

Definition processContact (contact : Contact) : ProcessedContact :=
  {| pc_id := contactId contact;
     pc_campaignId := campaignId (contactRow contact);
     pc_fields :=
       list_to_map
         ((fun field => (field, fieldOrEmpty (contactFields (contactRow contact)) field))
            <$> standardFields) |}.

Record PaginationData := {
  page : Z;
  limit : Z;
  total : Z;
  totalPages : Z
}.

Record ContactsAnswer := {
  ans_contacts : list ProcessedContact;
  ans_pagination : PaginationData
}.

(** The limit that the route passes for the full list: 10000. *)
Definition fullListLimit : nat := 100 * 100.

(** The route for an id that [parseInt] reads as [targetId]; [search] is
    the query parameter, if given. *)
Definition contactsRoute (targetId : nat) (search : option string) (db : Store)
  : ContactsAnswer :=
  let found :=
    match search with
    | Some query =>
        if truthy query
        then searchContactsInCampaign targetId query db
        else getContactsByCampaignId targetId fullListLimit 0 db
    | None => getContactsByCampaignId targetId fullListLimit 0 db
    end in
  let processedContacts := processContact <$> found in
  let totalCount := Z.of_nat (length processedContacts) in
  {| ans_contacts := processedContacts;
     ans_pagination :=
       {| page := 1; limit := totalCount; total := totalCount; totalPages := 1 |} |}.

(** ** The contact table of the client ([spreadsheet-table.tsx]) *)

Definition doubleQuote : ascii := ascii_of_nat 34.
Definition tab : ascii := ascii_of_nat 9.

Definition exportHeaders : list string :=
  [ "First Name"; "Last Name"; "Title"; "Company"; "Email";
    "Mobile Phone"; "Other Phone"; "Corporate Phone";
    "Person LinkedIn"; "Company LinkedIn"; "Website" ].

(** The data row of a contact: [contact.field || ''] for the eleven
    fields, in the order of the header row. *)
Definition exportCells (contact : ProcessedContact) : list string :=
  fieldOrEmpty (pc_fields contact) <$> standardFields.

(** [array.join(sep)] *)
Fixpoint joinWith (sep : string) (pieces : list string) : string :=
  match pieces with
  | [] => ""
  | [piece] => piece
  | piece :: rest => piece ++ sep ++ joinWith sep rest
  end.

(** [field.replace] of every double quote by two. *)
Fixpoint escapeQuotes (s : string) : string :=
  match s with
  | EmptyString => EmptyString
  | String c s' =>
      if Ascii.eqb c doubleQuote
      then String doubleQuote (String doubleQuote (escapeQuotes s'))
      else String c (escapeQuotes s')
  end.

(** The template that wraps the escaped field in double quotes. *)
Definition quoteField (field : string) : string :=
  String doubleQuote (escapeQuotes field ++ String doubleQuote "").

(** The [csvContent] of [exportToCSV]. *)
Definition csvContent (contacts : list ProcessedContact) : string :=
  joinWith (String newline "")
    ((fun row => joinWith "," (quoteField <$> row))
       <$> (exportHeaders :: (exportCells <$> contacts))).

(** The [tsvContent] of [copyToClipboard]. *)
Definition tsvContent (contacts : list ProcessedContact) : string :=
  joinWith (String newline "")
    (joinWith (String tab "") <$> (exportHeaders :: (exportCells <$> contacts))).

(** What [renderPaginationButtons] pushes. *)
Inductive paginationButton :=
| PageButton (target : Z) (current : bool)
| Ellipsis.

Definition maxVisiblePages : Z := 5.

(** The range of pages shown: [startPage] and [endPage] after the
    adjustment near the end. *)
Definition visibleRange (pagination : PaginationData) : Z * Z :=
  let startPage := Z.max 1 (page pagination - maxVisiblePages / 2) in
  let endPage := Z.min (totalPages pagination) (startPage + maxVisiblePages - 1) in
  let startPage :=
    if (endPage - startPage <? maxVisiblePages - 1)%Z
    then Z.max 1 (endPage - maxVisiblePages + 1)
    else startPage in
  (startPage, endPage).

Definition renderPaginationButtons (pagination : option PaginationData)
  : option (list paginationButton) :=
  match pagination with
  | None => None
  | Some pagination =>
      let '(startPage, endPage) := visibleRange pagination in
      let pages :=
        (fun i => PageButton i (i =? page pagination)%Z)
          <$> seqZ startPage (endPage - startPage + 1) in
      let tail :=
        if (endPage <? totalPages pagination)%Z
        then ((if (endPage <? totalPages pagination - 1)%Z then [Ellipsis] else [])
                ++ [PageButton (totalPages pagination) false])%list
        else [] in
      Some (pages ++ tail)%list
  end.

(** ** Notions used to state the properties *)

(** What one mapping entry contributes to the record of a row: the cell,
    under the condition of [mapField]. *)
Definition mappedCell (row : gmap string string) (csvColumn : string) : option cellValue :=
  if truthy csvColumn && negb (String.eqb csvColumn "skip")
     && cellTruthy (getProperty row csvColumn)
  then getProperty row csvColumn
  else None.

(** The text of a field of [contactData]: the string that it holds, and
    the empty string when it holds none. *)
Definition fieldText (contactData : gmap string cellValue) (field : string) : string :=
  match contactData !! field with
  | Some (CellString value) => value
  | _ => ""
  end.


(** [c] occurs in [s]. *)
Fixpoint hasChar (c : ascii) (s : string) : bool :=
  match s with
  | EmptyString => false
  | String c' s' => Ascii.eqb c' c || hasChar c s'
  end.

(** Every character of [s] is white space. *)
Fixpoint allWhiteSpace (s : string) : bool :=
  match s with
  | EmptyString => true
  | String c s' => isWhiteSpace c && allWhiteSpace s'
  end.

(** The invariants that the database keeps: the ids of a table are
    distinct and below the table's serial counter, and every contact
    references a campaign of the store. *)
Definition storeWellFormed (db : Store) : Prop :=
  NoDup (c_id <$> campaigns db)
  /\ Forall (fun campaign => c_id campaign < campaignSerial db) (campaigns db)
  /\ NoDup (contactId <$> contacts db)
  /\ Forall (fun contact => contactId contact < contactSerial db) (contacts db)
  /\ Forall (fun contact => campaignId (contactRow contact) ∈ (c_id <$> campaigns db))
            (contacts db).

(** A cell that the export writes and the client's parser reads back
    unchanged: no comma, no newline, no double quote. *)
Definition plainCell (cell : string) : bool :=
  negb (hasChar "," cell) && negb (hasChar newline cell) && negb (hasChar doubleQuote cell).

(** The lines that [parseCSVFile] keeps: those that are not blank. *)
Definition keptLines (csv : string) : list string :=
  filter (fun line => truthy (trim line) = true) (split newline csv).

(** ** Sample data for the examples *)

(** A runtime to evaluate the routes on examples: the tokenizer cuts
    lines and cells as the client's parser does, the random bytes and
    the cipher text are constant, and nothing throws. *)
Definition lineEvents (text : string) : list csvEvent :=
  match keptLines text with
  | [] => [EvEnd]
  | headerLine :: dataLines =>
      let headers := cleanCell <$> split "," headerLine in
      (EvHeaders headers
         :: ((fun line =>
                EvData (imap (fun index header =>
                                (header, cellOrEmpty (cleanCell <$> split "," line) index))
                             headers))
               <$> dataLines)
         ++ [EvEnd])%list
  end.

Definition exampleRuntime : NodeRuntime :=
  {| csvParser := lineEvents;
     cipherThrows := fun _ => false;
     aesCipherHex := fun _ => "5ca1ab1e";
     randomBytes := fun _ => "0000000000000000";
     bufferToHex := fun _ => "00000000000000000000000000000000";
     jsonStringify := fun _ => "{}";
     insertThrows := fun _ _ => false |}.

(** The same runtime with a database that refuses every insert of
    contacts, and with a platform that has no [createCipher]. *)
Definition refusingRuntime : NodeRuntime :=
  {| csvParser := lineEvents;
     cipherThrows := fun _ => false;
     aesCipherHex := fun _ => "5ca1ab1e";
     randomBytes := fun _ => "0000000000000000";
     bufferToHex := fun _ => "00000000000000000000000000000000";
     jsonStringify := fun _ => "{}";
     insertThrows := fun _ _ => true |}.

Definition cipherlessRuntime : NodeRuntime :=
  {| csvParser := lineEvents;
     cipherThrows := fun _ => true;
     aesCipherHex := fun _ => "";
     randomBytes := fun _ => "0000000000000000";
     bufferToHex := fun _ => "00000000000000000000000000000000";
     jsonStringify := fun _ => "{}";
     insertThrows := fun _ _ => false |}.

(** A submitted mapping with the two sentinels, a value that is no
    header, and a key that is no standard field. *)
Definition submittedMapping : gmap string jsonValue :=
  list_to_map
    [ ("firstName", JString "skip"); ("lastName", JString "none");
      ("email", JString "Nickname"); ("nickname", JString "Email") ].

(** A store that already holds the campaign [Q1 Leads]. *)
Definition q1Store : Store :=
  {| campaigns :=
       [ {| c_id := 1; c_name := "Q1 Leads"; c_fileName := "q1.csv"; c_uploadDate := 0;
            c_recordCount := 0; c_fileSize := 11; c_status := "active";
            c_fieldMapping := ∅ |} ];
     contacts := []; campaignSerial := 2; contactSerial := 1;
     now := 1; insertCalls := [] |}.




(** A file of two rows under a new name, with [title] skipped. *)
Definition q2File : UploadedFile :=
  {| buffer :=
       "Email,First Name" ++ String newline ("a@x.org,Ann" ++ String newline ",Bob");
     originalname := "q2.csv"; size := 36 |}.

Definition q2Mapping : gmap string string :=
  {[ "email" := "Email"; "firstName" := "First Name" ]}.

Definition q2Request : UploadRequest :=
  {| file := Some q2File;
     campaignName := "Q2 Leads";
     fieldMappingRaw := Some (mappingToJson (<["title" := "skip"]> q2Mapping)) |}.

(** The campaign that the upload of [q2Request] into [q1Store] creates. *)
Definition q2Campaign : Campaign :=
  {| c_id := 2; c_name := "Q2 Leads"; c_fileName := "q2.csv"; c_uploadDate := 1;
     c_recordCount := 2; c_fileSize := 36; c_status := "active";
     c_fieldMapping := <["title" := "skip"]> q2Mapping |}.

Definition q2Parsed : ParsedCsv :=
  {| headers := ["Email"; "First Name"];
     rows := [ {[ "Email" := "a@x.org"; "First Name" := "Ann" ]};
               {[ "Email" := ""; "First Name" := "Bob" ]} ] |}.

(** A file of one row under a new name, with [firstName] mapped to a
    column [constructor] that the file does not have. *)
Definition q3File : UploadedFile :=
  {| buffer := "Email" ++ String newline "a@x.org"; originalname := "q3.csv"; size := 13 |}.

Definition q3Request : UploadRequest :=
  {| file := Some q3File;
     campaignName := "Q3 Leads";
     fieldMappingRaw := Some (JObject {[ "firstName" := JString "constructor" ]}) |}.

(** The campaign that the upload of [q3Request] into [q1Store] leaves
    behind. *)
Definition q3Campaign : Campaign :=
  {| c_id := 2; c_name := "Q3 Leads"; c_fileName := "q3.csv"; c_uploadDate := 1;
     c_recordCount := 1; c_fileSize := 13; c_status := "active";
     c_fieldMapping := {[ "firstName" := "constructor" ]} |}.

(** A contact of the table with a first name and an email. *)
Definition annContact : ProcessedContact :=
  {| pc_id := 1; pc_campaignId := 1;
     pc_fields := {[ "firstName" := "Ann"; "email" := "ann@example.org" ]} |}.

(** A text with a header line of two cells and a data line of one. *)
Definition shortRowCsv : string :=
  String "a" (String "," (String "b" (String newline (String "1" "")))).

Definition shortRow : gmap string string := {[ "a" := "1"; "b" := "" ]}.

Definition shortRowParsed : ParsedCsv :=
  {| headers := ["a"; "b"]; rows := [shortRow] |}.

(** A text whose first header is [__proto__]. *)
Definition protoRowCsv : string :=
  "__proto__,a" ++ String newline "1,2".

Definition protoRow : gmap string string := {[ "a" := "2" ]}.

Definition protoRowParsed : ParsedCsv :=
  {| headers := ["__proto__"; "a"]; rows := [protoRow] |}.

(** * Properties *)

#[local] Set Warnings "-clear-no-such-hyp".

(** ** Field detection *)

Ltac in_list := repeat first [apply list_elem_of_here | apply list_elem_of_further].

Section DetectionFacts.
Variable normalize : string -> string.

(** One pass over a table [table] without repeated keys leaves at
    [field] the header when the field's patterns match, and the old
    value otherwise. *)
Lemma scan_fold_lookup (table : list (string * list string)) header field patterns :
  NoDup table.*1 ->
  (field, patterns) ∈ table ->
  forall mapping : gmap string string,
    foldl (fun mapping '(field, patterns) =>
             if matchesField normalize patterns header
             then <[field := header]> mapping
             else mapping) mapping table !! field
    = if matchesField normalize patterns header then Some header else mapping !! field.
Proof.
  induction table as [|[f ps] table IH]; intros Hnd Hin mapping.
  - by apply elem_of_nil in Hin.
  - simpl in *. apply NoDup_cons in Hnd as [Hf Hnd].
    apply elem_of_cons in Hin as [Heq | Hin].
    + injection Heq as <- <-.
      assert (Hskip : forall m : gmap string string,
                 foldl (fun mapping '(field, patterns) =>
                          if matchesField normalize patterns header
                          then <[field := header]> mapping
                          else mapping) m table !! field = m !! field).
      { clear IH Hnd. induction table as [|[f' ps'] table IH']; intros m; [done|].
        simpl in *. apply not_elem_of_cons in Hf as [Hne Hf].
        rewrite IH' by done.
        destruct (matchesField normalize ps' header); [|done].
        by rewrite lookup_insert_ne. }
      rewrite Hskip. destruct (matchesField normalize patterns header); [|done].
      by rewrite lookup_insert_eq.
    + rewrite IH by done.
      destruct (matchesField normalize patterns header); [done|].
      destruct (matchesField normalize ps header); [|done].
      rewrite lookup_insert_ne; [done|].
      intros ->. apply Hf. apply list_elem_of_fmap. by exists (field, patterns).
Qed.

Lemma fieldPatterns_NoDup : NoDup fieldPatterns.*1.
Proof. apply NoDup_ListNoDup. vm_compute. repeat constructor; simpl; intuition congruence. Qed.

Lemma scanHeader_lookup mapping header field patterns :
  (field, patterns) ∈ fieldPatterns ->
  scanHeader normalize mapping header !! field
  = if matchesField normalize patterns header then Some header else mapping !! field.
Proof. intros Hin. by apply scan_fold_lookup; [apply fieldPatterns_NoDup|]. Qed.

(** The scan from any starting mapping: the last matching header, or
    the starting value when no header matches. *)
Lemma scan_headers_lookup headers field patterns :
  (field, patterns) ∈ fieldPatterns ->
  forall mapping : gmap string string,
    foldl (scanHeader normalize) mapping headers !! field
    = match last (List.filter (matchesField normalize patterns) headers) with
      | Some header => Some header
      | None => mapping !! field
      end.
Proof.
  intros Hin. induction headers as [|header headers IH]; intros mapping; [done|].
  cbn [foldl List.filter]. rewrite IH, (scanHeader_lookup _ _ _ patterns) by done.
  destruct (matchesField normalize patterns header); [|done].
  rewrite last_cons. by destruct (last (List.filter _ headers)).
Qed.

(** Every entry written by a pass was there before or is the header
    scanned, under a key of the table. *)
Lemma scanHeader_entries mapping header k v :
  scanHeader normalize mapping header !! k = Some v ->
  mapping !! k = Some v \/ (k ∈ fieldPatterns.*1 /\ v = header).
Proof.
  unfold scanHeader. generalize fieldPatterns as table.
  intros table; revert mapping.
  induction table as [|[f ps] table IH]; intros mapping Hk; [by left|].
  cbn [foldl] in Hk. apply IH in Hk as [Hk | [Hk ->]].
  - destruct (matchesField normalize ps header); [|by left].
    destruct (decide (f = k)) as [->|Hne].
    + rewrite lookup_insert_eq in Hk. injection Hk as <-.
      right. split; [apply list_elem_of_here|done].
    + rewrite lookup_insert_ne in Hk by done. by left.
  - right. split; [by apply list_elem_of_further|done].
Qed.

End DetectionFacts.

Lemma fieldPatterns_keys : fieldPatterns.*1 = standardFields.
Proof. reflexivity. Qed.

(** C8. Tie-break of [detectFields]: for every header list and every
    standard field, the field is assigned the last header of the list
    that matches the field's patterns (and is left unassigned when no
    header matches); in particular, when more than one header matches,
    the later match has overwritten the earlier ones.  This holds for
    any normalisation of the headers, [header.toLowerCase().trim()]
    included. *)
Theorem detectFields_last_match_wins :
  forall (normalize : string -> string) (headers : list string)
         (field : string) (patterns : list string),
    (field, patterns) ∈ fieldPatterns ->
    detectFieldsWith normalize headers !! field
    = last (List.filter (matchesField normalize patterns) headers).
Proof.
  intros normalize headers field patterns Hin. unfold detectFieldsWith.
  rewrite (scan_headers_lookup normalize headers field patterns Hin).
  rewrite lookup_empty. by destruct (last _).
Qed.

(** Two phone columns: the later one is kept for [otherPhone]. *)
Lemma detectFields_last_match_wins_witness :
  ("otherPhone", ["phone"; "other phone"; "telephone"; "other_phone"]) ∈ fieldPatterns
  /\ detectFields ["Phone"; "Name"; "Other Phone"] !! "otherPhone" = Some "Other Phone".
Proof.
  split; [in_list|].
  unfold detectFields.
  rewrite (detectFields_last_match_wins normalizeHeader
             ["Phone"; "Name"; "Other Phone"] "otherPhone"
             ["phone"; "other phone"; "telephone"; "other_phone"]); [reflexivity|in_list].
Defined.

(** C9. Shape of the detected mapping: for every header list, every key
    of the mapping returned by [detectFields] (and by the client's
    [detectCSVFields], the same scan) is one of the 11 standard fields,
    and every value is an element of the input header list, that is, a
    header as it was given and not its normalised form. *)
Theorem detectFields_keys_and_values :
  forall (normalize : string -> string) (headers : list string) (k v : string),
    detectFieldsWith normalize headers !! k = Some v ->
    k ∈ standardFields /\ v ∈ headers.
Proof.
  intros normalize headers k v. unfold detectFieldsWith.
  assert (Hgen : forall mapping : gmap string string,
             foldl (scanHeader normalize) mapping headers !! k = Some v ->
             mapping !! k = Some v \/ (k ∈ standardFields /\ v ∈ headers)).
  { induction headers as [|header headers IH]; intros mapping Hk; [by left|].
    cbn [foldl] in Hk. apply IH in Hk as [Hk | [Hk Hv]].
    - apply scanHeader_entries in Hk as [Hk | [Hk ->]]; [by left|].
      right. rewrite <- fieldPatterns_keys. split; [done|apply list_elem_of_here].
    - right. split; [done|by apply list_elem_of_further]. }
  intros Hk. apply Hgen in Hk as [Hk|Hk]; [|done].
  by rewrite lookup_empty in Hk.
Qed.

(** The value keeps the casing of the header. *)
Lemma detectFields_keys_and_values_witness :
  detectFields [" First Name "; "E-MAIL"] !! "email" = Some "E-MAIL"
  /\ "email" ∈ standardFields /\ "E-MAIL" ∈ [" First Name "; "E-MAIL"].
Proof.
  split; [reflexivity|].
  apply (detectFields_keys_and_values normalizeHeader). reflexivity.
Defined.

(** C2, as stated, fails: on the contact headers a sixth field is
    assigned, because the pattern [phone] of [otherPhone] occurs in
    [mobile phone]. *)
Lemma detectFields_contactHeaders_otherPhone :
  detectFields contactHeaders !! "otherPhone" = Some "Mobile Phone".
Proof. reflexivity. Qed.

(** C2, amended. [detectFields] on the contact headers returns exactly
    the five assignments of the table and [otherPhone], which is also
    assigned the header [Mobile Phone]; no other field is assigned. *)
Theorem detectFields_contactHeaders :
  detectFields contactHeaders
  = list_to_map
      [ ("firstName", "First Name"); ("lastName", "Last Name");
        ("email", "E-mail"); ("mobilePhone", "Mobile Phone");
        ("otherPhone", "Mobile Phone"); ("personLinkedinUrl", "LinkedIn") ].
Proof. vm_cast_no_check (@eq_refl (gmap string string) (detectFields contactHeaders)). Qed.

(** C3, as stated, fails: on the company headers, [company] and
    [companyLinkedinUrl] both point at [Company LinkedIn Url], and the
    header [Company] is assigned to no field. *)
Lemma detectFields_companyHeaders_same_header :
  detectFields companyHeaders !! "company" = Some "Company LinkedIn Url"
  /\ detectFields companyHeaders !! "companyLinkedinUrl" = Some "Company LinkedIn Url".
Proof. split; reflexivity. Qed.

(** C3, amended. [detectFields] on the company headers maps
    [companyLinkedinUrl] to [Company LinkedIn Url], and maps [company],
    [personLinkedinUrl] and [website] to that same header as well (its
    normal form contains [company], [linkedin] and [url], and it comes
    last); nothing else is assigned. *)
Theorem detectFields_companyHeaders :
  detectFields companyHeaders
  = list_to_map
      [ ("company", "Company LinkedIn Url");
        ("personLinkedinUrl", "Company LinkedIn Url");
        ("companyLinkedinUrl", "Company LinkedIn Url");
        ("website", "Company LinkedIn Url") ].
Proof. vm_cast_no_check (@eq_refl (gmap string string) (detectFields companyHeaders)). Qed.

(** ** Mapping validation *)

Section ValidationFacts.
Variable input : gmap string jsonValue.

Let step (field : string) (result : option (gmap string string)) :=
  parsed ← result;
  value ← parseOptionalString (input !! field);
  Some (match value with
        | Some s => <[field := s]> parsed
        | None => parsed
        end).

Lemma parse_fold_Some (fields : list string) (out : gmap string string) :
  foldr step (Some ∅) fields = Some out ->
  forall k s, out !! k = Some s <-> k ∈ fields /\ input !! k = Some (JString s).
Proof.
  revert out. induction fields as [|field fields IH]; intros out Hout k s.
  - injection Hout as <-. rewrite lookup_empty, elem_of_nil. naive_solver.
  - cbn [foldr] in Hout. unfold step at 1 in Hout.
    destruct (foldr step (Some ∅) fields) as [parsed|] eqn:Hrest; [|done].
    cbn in Hout. specialize (IH parsed eq_refl k s).
    rewrite elem_of_cons.
    destruct (input !! field) as [[| | |s'| |]|] eqn:Hfield; cbn in Hout; try done;
      injection Hout as <-.
    + destruct (decide (k = field)) as [->|Hne].
      * rewrite lookup_insert_eq, Hfield. naive_solver.
      * rewrite lookup_insert_ne by done. naive_solver.
    + rewrite IH. split; [naive_solver|].
      intros [[->|Hin] Hk]; [congruence|done].
Qed.

Lemma parse_fold_Some_strings (fields : list string) (out : gmap string string) :
  foldr step (Some ∅) fields = Some out ->
  forall field v, field ∈ fields -> input !! field = Some v -> exists s, v = JString s.
Proof.
  revert out. induction fields as [|f fields IH]; intros out Hout field v Hin Hv.
  - by apply elem_of_nil in Hin.
  - cbn [foldr] in Hout. unfold step at 1 in Hout.
    destruct (foldr step (Some ∅) fields) as [parsed|] eqn:Hrest; [|done].
    cbn in Hout. apply elem_of_cons in Hin as [->|Hin]; [|by eapply IH].
    rewrite Hv in Hout. destruct v; cbn in Hout; try done. by eexists.
Qed.

Lemma parse_fold_None (fields : list string) :
  foldr step (Some ∅) fields = None ->
  exists field v, field ∈ fields /\ input !! field = Some v /\ forall s, v <> JString s.
Proof.
  induction fields as [|field fields IH]; [done|].
  cbn [foldr]. unfold step at 1.
  destruct (foldr step (Some ∅) fields) as [parsed|] eqn:Hrest.
  - cbn. intros Hnone. exists field.
    destruct (input !! field) as [v|] eqn:Hfield; [|done].
    exists v. split; [apply list_elem_of_here|]. split; [done|].
    intros s ->. done.
  - intros _. destruct (IH eq_refl) as (f & v & Hin & Hv & Hns).
    exists f, v. split; [by apply list_elem_of_further|done].
Qed.

End ValidationFacts.

(** C4, as stated, fails: the submitted mapping is accepted although
    [nickname] is no standard field, and the entries whose values are
    [skip], [none] and [Nickname] (no header of the file) are kept. *)
Lemma fieldMappingSchema_parse_keeps_sentinels :
  fieldMappingSchema_parse (JObject submittedMapping)
  = Some (list_to_map
            [ ("firstName", "skip"); ("lastName", "none"); ("email", "Nickname") ])
  /\ is_Some (submittedMapping !! "nickname")
  /\ ("nickname" ∉ standardFields)
  /\ ("Nickname" ∉ ["Email"]).
Proof.
  split; [|split; [|split]].
  - vm_cast_no_check
      (@eq_refl (option (gmap string string))
         (fieldMappingSchema_parse (JObject submittedMapping))).
  - by eexists.
  - unfold standardFields. rewrite !not_elem_of_cons. repeat split; try done.
    apply not_elem_of_nil.
  - rewrite not_elem_of_cons. split; [done|apply not_elem_of_nil].
Qed.

(** C4, amended. For every submitted mapping (the members of the JSON
    object), validation succeeds exactly when every standard field that
    is present holds a string, and fails with the validation error
    otherwise; when it succeeds it keeps exactly the entries whose key is
    a standard field, with their values unchanged, whatever these values
    are (the sentinels [skip] and [none] and names that are no header
    included: the headers are no input of the validation), and it drops
    the entries under other keys without failing. *)
Theorem fieldMappingSchema_parse_spec :
  forall members : gmap string jsonValue,
    match fieldMappingSchema_parse (JObject members) with
    | Some fieldMapping =>
        (forall field v, field ∈ standardFields -> members !! field = Some v ->
                         exists s, v = JString s)
        /\ (forall k s, fieldMapping !! k = Some s
                        <-> k ∈ standardFields /\ members !! k = Some (JString s))
    | None =>
        exists field v, field ∈ standardFields /\ members !! field = Some v
                        /\ forall s, v <> JString s
    end.
Proof.
  intros members. cbn [fieldMappingSchema_parse]. unfold parseShape.
  destruct (foldr _ (Some ∅) standardFields) as [fieldMapping|] eqn:Hparse.
  - split; [by eapply parse_fold_Some_strings|by apply parse_fold_Some].
  - by apply parse_fold_None.
Qed.

(** ** Row transform *)

Lemma truthy_spec (s : string) : truthy s = true <-> s <> "".
Proof. destruct s; cbn; split; congruence. Qed.

Lemma getProperty_own (row : gmap string string) (key value : string) :
  row !! key = Some value -> getProperty row key = Some (CellString value).
Proof. unfold getProperty. by intros ->. Qed.

Lemma getProperty_CellString (row : gmap string string) (key value : string) :
  getProperty row key = Some (CellString value) <-> row !! key = Some value.
Proof.
  unfold getProperty. destruct (row !! key); [naive_solver|].
  by destruct (bool_decide _).
Qed.

Lemma getProperty_PrototypeMember (row : gmap string string) (key name : string) :
  getProperty row key = Some (PrototypeMember name)
  <-> row !! key = None /\ key ∈ objectPrototypeKeys /\ name = key.
Proof.
  unfold getProperty. destruct (row !! key); [naive_solver|].
  case_bool_decide; naive_solver.
Qed.

Lemma mappedCell_Some row csvColumn value :
  mappedCell row csvColumn = Some value
  <-> csvColumn <> "" /\ csvColumn <> "skip"
      /\ getProperty row csvColumn = Some value /\ value <> CellString "".
Proof.
  unfold mappedCell, cellTruthy.
  destruct (truthy csvColumn) eqn:Hc; cbn.
  - apply truthy_spec in Hc.
    destruct (String.eqb_spec csvColumn "skip") as [->|Hskip]; cbn; [naive_solver|].
    destruct (getProperty row csvColumn) as [[cell|name]|]; [|naive_solver..].
    destruct (truthy cell) eqn:Hcell.
    + apply truthy_spec in Hcell. naive_solver.
    + destruct cell; [|done]. naive_solver.
  - destruct csvColumn; [|done]. naive_solver.
Qed.

Lemma mapField_mappedCell (row : gmap string string) (field csvColumn : string)
    (contactData : gmap string cellValue) :
  mapField row field csvColumn contactData
  = match mappedCell row csvColumn with
    | Some value => setProperty field value contactData
    | None => contactData
    end.
Proof.
  unfold mapField, mappedCell.
  destruct (truthy csvColumn && negb (csvColumn =? "skip")%string
            && cellTruthy (getProperty row csvColumn)) eqn:Hcond; [|done].
  destruct (getProperty row csvColumn); [done|].
  by rewrite andb_false_r in Hcond.
Qed.

Lemma setProperty_lookup {A} (key k : string) (value : A) (obj : gmap string A) :
  setProperty key value obj !! k
  = if decide (k = key /\ key <> "__proto__") then Some value else obj !! k.
Proof.
  unfold setProperty. destruct (String.eqb_spec key "__proto__") as [->|Hkey].
  - by rewrite decide_False by naive_solver.
  - destruct (decide (k = key)) as [->|Hne].
    + by rewrite lookup_insert_eq, decide_True.
    + by rewrite lookup_insert_ne, decide_False by naive_solver.
Qed.

(** The record of a row, field by field: what the mapping's column
    contributes, and nothing under the name [__proto__]. *)
Lemma transformRow_lookup (fieldMapping row : gmap string string) (standardField : string) :
  transformRow fieldMapping row !! standardField
  = if decide (standardField = "__proto__") then None
    else fieldMapping !! standardField ≫= mappedCell row.
Proof.
  unfold transformRow.
  apply (map_fold_weak_ind
           (fun (contactData : gmap string cellValue) (m : gmap string string) =>
              contactData !! standardField
              = if decide (standardField = "__proto__") then None
                else m !! standardField ≫= mappedCell row)).
  { rewrite !lookup_empty. by destruct (decide _). }
  intros field csvColumn m contactData Hfresh IH.
  rewrite mapField_mappedCell.
  destruct (decide (standardField = "__proto__")) as [->|Hproto].
  - destruct (mappedCell row csvColumn); [|done].
    rewrite setProperty_lookup, decide_False by naive_solver. done.
  - destruct (decide (field = standardField)) as [->|Hne].
    + rewrite lookup_insert_eq. cbn. rewrite Hfresh in IH. cbn in IH.
      destruct (mappedCell row csvColumn); [|done].
      by rewrite setProperty_lookup, decide_True.
    + rewrite (lookup_insert_ne m) by done.
      destruct (mappedCell row csvColumn); [|done].
      by rewrite setProperty_lookup, decide_False by naive_solver.
Qed.

(** When the mapping has no key [__proto__], as every validated mapping. *)
Lemma transformRow_lookup_standard (fieldMapping row : gmap string string)
    (standardField : string) :
  fieldMapping !! "__proto__" = None ->
  transformRow fieldMapping row !! standardField
  = fieldMapping !! standardField ≫= mappedCell row.
Proof.
  intros Hproto. rewrite transformRow_lookup.
  destruct (decide (standardField = "__proto__")) as [->|]; [by rewrite Hproto|done].
Qed.

Section ContactSchemaFacts.
Variable input : gmap string cellValue.

Let step (field : string) (result : option (gmap string string)) :=
  parsed ← result;
  match input !! field with
  | None => Some parsed
  | Some (CellString value) => Some (<[field := value]> parsed)
  | Some (PrototypeMember _) => None
  end.

Lemma contact_fold_Some (fields : list string) (out : gmap string string) :
  foldr step (Some ∅) fields = Some out ->
  forall k s, out !! k = Some s <-> k ∈ fields /\ input !! k = Some (CellString s).
Proof.
  revert out. induction fields as [|field fields IH]; intros out Hout k s.
  - injection Hout as <-. rewrite lookup_empty, elem_of_nil. naive_solver.
  - cbn [foldr] in Hout. unfold step at 1 in Hout.
    destruct (foldr step (Some ∅) fields) as [parsed|] eqn:Hrest; [|done].
    cbn in Hout. specialize (IH parsed eq_refl k s).
    rewrite elem_of_cons.
    destruct (input !! field) as [[s'|name]|] eqn:Hfield; try done; injection Hout as <-.
    + destruct (decide (k = field)) as [->|Hne].
      * rewrite lookup_insert_eq, Hfield. naive_solver.
      * rewrite lookup_insert_ne by done. naive_solver.
    + rewrite IH. split; [naive_solver|].
      intros [[->|Hin] Hk]; [congruence|done].
Qed.

Lemma contact_fold_None (fields : list string) :
  foldr step (Some ∅) fields = None
  <-> exists field name, field ∈ fields /\ input !! field = Some (PrototypeMember name).
Proof.
  induction fields as [|field fields IH].
  - split; [done|]. intros (f & name & Hin & _). by apply elem_of_nil in Hin.
  - cbn [foldr]. unfold step at 1.
    destruct (foldr step (Some ∅) fields) as [parsed|] eqn:Hrest.
    + cbn. split.
      * intros Hnone. exists field.
        destruct (input !! field) as [[s|name]|] eqn:Hfield; try done.
        exists name. split; [apply list_elem_of_here|done].
      * intros (f & name & [->|Hin]%elem_of_cons & Hf); [by rewrite Hf|].
        assert (Some parsed = @None (gmap string string)); [|done].
        apply IH. by exists f, name.
    + split; [|done]. intros _. destruct (proj1 IH eq_refl) as (f & name & Hin & Hf).
      exists f, name. split; [by apply list_elem_of_further|done].
Qed.

End ContactSchemaFacts.

Lemma parseContactFields_Some (input : gmap string cellValue) (out : gmap string string) :
  parseContactFields input = Some out ->
  forall k s, out !! k = Some s <-> k ∈ standardFields /\ input !! k = Some (CellString s).
Proof. apply contact_fold_Some. Qed.

Lemma parseContactFields_None (input : gmap string cellValue) :
  parseContactFields input = None
  <-> exists field name, field ∈ standardFields /\ input !! field = Some (PrototypeMember name).
Proof. apply contact_fold_None. Qed.

(** A mapping with standard keys only gives a record with standard keys
    only. *)
Lemma transformRow_keys (fieldMapping row : gmap string string) (k : string) (v : cellValue) :
  (forall field, is_Some (fieldMapping !! field) -> field ∈ standardFields) ->
  transformRow fieldMapping row !! k = Some v -> k ∈ standardFields.
Proof.
  intros Hkeys Hv. rewrite transformRow_lookup in Hv.
  destruct (decide _); [done|].
  destruct (fieldMapping !! k) eqn:Hk; [|done]. apply Hkeys. by rewrite Hk.
Qed.

Lemma standardFields_not_columns :
  ("campaignId" ∉ standardFields) /\ ("encryptedData" ∉ standardFields)
  /\ ("__proto__" ∉ standardFields).
Proof.
  unfold standardFields. rewrite !not_elem_of_cons.
  repeat split; try discriminate; apply not_elem_of_nil.
Qed.

(** The callback on a row, for a mapping with standard keys only: it
    throws when the cipher throws or when a field was set to a member of
    [Object.prototype], and returns the string fields otherwise. *)
Lemma buildContact_cases (node : NodeRuntime) (campaign : Campaign) (index : nat)
    (fieldMapping row : gmap string string) :
  (forall field, is_Some (fieldMapping !! field) -> field ∈ standardFields) ->
  let contactData := transformRow fieldMapping row in
  if cipherThrows (jsonStringify contactData)
  then buildContact campaign fieldMapping index row = Threw OtherError
  else
    (exists field name, contactData !! field = Some (PrototypeMember name))
    /\ buildContact campaign fieldMapping index row = Threw ZodError
    \/ (forall field name, contactData !! field <> Some (PrototypeMember name))
       /\ exists fields,
            parseContactFields contactData = Some fields
            /\ buildContact campaign fieldMapping index row
               = Returned
                   {| campaignId := c_id campaign;
                      encryptedData :=
                        encrypt bufferToHex aesCipherHex (randomBytes index)
                                (jsonStringify contactData);
                      contactFields := fields |}.
Proof.
  intros Hkeys contactData. unfold buildContact. fold contactData.
  destruct (cipherThrows (jsonStringify contactData)); [done|].
  destruct standardFields_not_columns as (Hid & Hblob & _).
  unfold insertContactSchema_parse.
  destruct (contactData !! "campaignId") as [v|] eqn:Hv.
  { destruct Hid. exact (transformRow_keys fieldMapping row _ v Hkeys Hv). }
  destruct (contactData !! "encryptedData") as [v|] eqn:Hv'.
  { destruct Hblob. exact (transformRow_keys fieldMapping row _ v Hkeys Hv'). }
  destruct (parseContactFields contactData) as [fields|] eqn:Hfields; cbn.
  - right. split; [|by exists fields].
    intros field name Hfield.
    assert (parseContactFields contactData = None); [|congruence].
    apply parseContactFields_None. exists field, name. split; [|done].
    exact (transformRow_keys fieldMapping row _ _ Hkeys Hfield).
  - left. split; [|done].
    apply parseContactFields_None in Hfields as (field & name & _ & Hfield).
    by exists field, name.
Qed.

(** C1, as stated, fails: a mapping may assign the column whose name is
    the empty string (a header cell left blank), which is not the skip
    sentinel and which holds a non-empty cell in the row; the guard
    [csvColumn &&] leaves the field unset all the same. *)
Lemma transformRow_blank_column_name :
  ({[ "firstName" := "" ]} : gmap string string) !! "firstName" = Some ""
  /\ ({[ "" := "Ann" ]} : gmap string string) !! "" = Some "Ann"
  /\ transformRow {[ "firstName" := "" ]} {[ "" := "Ann" ]} !! "firstName" = None.
Proof. repeat split; vm_compute; reflexivity. Qed.

(** It fails the other way too: the row [{a: 1}] has no column
    [constructor], yet [row[constructor]] is the function inherited from
    [Object.prototype], which is truthy; the field is set to it, and
    [insertContactSchema.parse] then throws, so that no record is
    built. *)
Lemma buildContact_inherited_member :
  ({[ "a" := "1" ]} : gmap string string) !! "constructor" = None
  /\ transformRow {[ "firstName" := "constructor" ]} {[ "a" := "1" ]} !! "firstName"
     = Some (PrototypeMember "constructor")
  /\ buildContact (node := exampleRuntime) q2Campaign {[ "firstName" := "constructor" ]}
       0 {[ "a" := "1" ]}
     = Threw ZodError.
Proof. repeat split; vm_compute; reflexivity. Qed.

(** C1, amended. For every parsed row and every mapping, the transform
    sets [standardField] to [row[csvColumn]] exactly when the mapping
    assigns to [standardField] a source column whose name is not empty
    and is not the skip sentinel and [row[csvColumn]], read as a
    property of a plain object, is truthy: a non-empty cell of the row
    or, when the row has no such column, a member of
    [Object.prototype].  In every other case the field is absent; no
    field ever holds the empty string.  When the callback returns a
    contact record, the record holds exactly the non-empty cells of the
    row at the mapped columns.  For a validated mapping (standard keys
    only) the callback returns a record unless the cipher throws or a
    field was set to a member of [Object.prototype]: in that case
    [insertContactSchema.parse] throws a [ZodError] and no record is
    built. *)
Theorem buildContact_fields :
  forall (node : NodeRuntime) (campaign : Campaign) (index : nat)
         (fieldMapping row : gmap string string),
    (forall standardField value,
       transformRow fieldMapping row !! standardField = Some value
       <-> standardField <> "__proto__"
           /\ exists csvColumn,
                fieldMapping !! standardField = Some csvColumn
                /\ csvColumn <> "" /\ csvColumn <> "skip"
                /\ getProperty row csvColumn = Some value /\ value <> CellString "")
    /\ (forall contact,
          buildContact campaign fieldMapping index row = Returned contact ->
          forall standardField value,
            contactFields contact !! standardField = Some value
            <-> standardField ∈ standardFields
                /\ exists csvColumn,
                     fieldMapping !! standardField = Some csvColumn
                     /\ csvColumn <> "" /\ csvColumn <> "skip"
                     /\ row !! csvColumn = Some value /\ value <> "")
    /\ ((forall field, is_Some (fieldMapping !! field) -> field ∈ standardFields) ->
        if cipherThrows (jsonStringify (transformRow fieldMapping row))
        then buildContact campaign fieldMapping index row = Threw OtherError
        else
          (exists field name,
             transformRow fieldMapping row !! field = Some (PrototypeMember name))
          /\ buildContact campaign fieldMapping index row = Threw ZodError
          \/ (forall field name,
                transformRow fieldMapping row !! field <> Some (PrototypeMember name))
             /\ exists contact,
                  buildContact campaign fieldMapping index row = Returned contact).
Proof.
  intros node campaign index fieldMapping row.
  assert (Hset : forall standardField value,
             transformRow fieldMapping row !! standardField = Some value
             <-> standardField <> "__proto__"
                 /\ exists csvColumn,
                      fieldMapping !! standardField = Some csvColumn
                      /\ csvColumn <> "" /\ csvColumn <> "skip"
                      /\ getProperty row csvColumn = Some value /\ value <> CellString "").
  { intros standardField value. rewrite transformRow_lookup.
    destruct (decide (standardField = "__proto__")) as [->|Hproto]; [naive_solver|].
    destruct (fieldMapping !! standardField) as [csvColumn|]; cbn.
    - rewrite mappedCell_Some. split.
      + intros Hcell. split; [done|]. by exists csvColumn.
      + intros (_ & c & Hc & Hcell). by injection Hc as ->.
    - split; [done|]. by intros (_ & c & Hc & _). }
  split; [exact Hset|]. split.
  - intros contact. unfold buildContact.
    destruct (cipherThrows _); [done|]. unfold insertContactSchema_parse.
    destruct (transformRow fieldMapping row !! "campaignId"); [done|].
    destruct (parseContactFields (transformRow fieldMapping row)) as [fields|] eqn:Hfields.
    2: { by destruct (transformRow fieldMapping row !! "encryptedData") as [[?|?]|]. }
    intros Hcontact standardField value.
    assert (Hfieldsof : contactFields contact = fields).
    { by destruct (transformRow fieldMapping row !! "encryptedData") as [[?|?]|];
        cbn in Hcontact; try done; injection Hcontact as <-. }
    rewrite Hfieldsof.
    rewrite (parseContactFields_Some _ _ Hfields), Hset.
    destruct standardFields_not_columns as (_ & _ & Hproto).
    split.
    + intros (Hstd & _ & csvColumn & Hc & Hne & Hskip & Hcell & Hvalue).
      split; [done|]. exists csvColumn. apply getProperty_CellString in Hcell.
      repeat split; try done. by intros ->.
    + intros (Hstd & csvColumn & Hc & Hne & Hskip & Hcell & Hvalue).
      split; [done|]. split; [by intros ->|]. exists csvColumn.
      apply getProperty_CellString in Hcell. repeat split; try done. by intros [= ->].
  - intros Hkeys. pose proof (buildContact_cases node campaign index fieldMapping row Hkeys)
      as Hcases. cbv zeta in Hcases.
    destruct (cipherThrows _); [done|].
    destruct Hcases as [Hthrew|[Hnone (fields & _ & Hreturned)]]; [by left|].
    right. split; [done|]. by eexists.
Qed.

(** ** Batched persistence *)





(** ** Duplicate campaign names *)

Lemma getCampaignByName_existing (name : string) (db : Store) (existing : Campaign) :
  existing ∈ campaigns db -> c_name existing = name ->
  is_Some (getCampaignByName name db).
Proof.
  unfold getCampaignByName. generalize (campaigns db) as table.
  intros table Hin Hname.
  induction Hin as [existing others|existing other others Hin IH]; cbn [find].
  - rewrite Hname, String.eqb_refl. by eexists.
  - destruct (c_name other =? name)%string; [by eexists|by apply IH].
Qed.

Lemma getCampaignByName_Some (name : string) (db : Store) (found : Campaign) :
  getCampaignByName name db = Some found ->
  found ∈ campaigns db /\ c_name found = name.
Proof.
  unfold getCampaignByName. intros Hfind. apply find_some in Hfind as [Hin Heq].
  split; [by apply list_elem_of_In|by apply String.eqb_eq].
Qed.



(** ** Encryption utilities *)

Lemma split_cons_sep (sep : ascii) (s : string) :
  split sep (String sep s) = "" :: split sep s.
Proof. cbn [split]. by rewrite Ascii.eqb_refl. Qed.

Lemma split_nonempty (sep : ascii) (s : string) : split sep s <> [].
Proof.
  induction s as [|c s IH]; cbn [split]; [done|].
  destruct (Ascii.eqb c sep), (split sep s); done.
Qed.

(** Splitting does not look into a prefix without separator. *)
Lemma split_prefix (sep : ascii) (prefix rest : string) :
  hasChar sep prefix = false ->
  split sep (prefix ++ String sep rest) = prefix :: split sep rest.
Proof.
  induction prefix as [|c prefix IH]; intros Hfree.
  - apply split_cons_sep.
  - cbn [hasChar] in Hfree. apply orb_false_iff in Hfree as [Hc Hfree].
    change (String c prefix ++ String sep rest)
      with (String c (prefix ++ String sep rest)).
    cbn [split]. by rewrite Hc, (IH Hfree).
Qed.

Lemma split_no_sep (sep : ascii) (s : string) :
  hasChar sep s = false -> split sep s = [s].
Proof.
  induction s as [|c s IH]; intros Hfree; [done|].
  cbn [hasChar] in Hfree. apply orb_false_iff in Hfree as [Hc Hfree].
  cbn [split]. by rewrite Hc, (IH Hfree).
Qed.

Lemma isHex_no_colon (s : string) : isHex s = true -> hasChar ":" s = false.
Proof.
  induction s as [|c s IH]; [done|]. cbn [isHex hasChar]. intros [Hc Hs]%andb_true_iff.
  rewrite (IH Hs), orb_false_r.
  destruct (Ascii.eqb_spec c ":") as [->|]; [|done]. by vm_compute in Hc.
Qed.

(** [decrypt] on a hexadecimal prefix, a colon and a hexadecimal payload. *)
Lemma decrypt_prefixed (decipherUtf8 : string -> option string) (prefix payload : string) :
  isHex prefix = true -> isHex payload = true ->
  decrypt decipherUtf8 (prefix ++ ":" ++ payload)
  = match decipherUtf8 payload with
    | Some decrypted => decrypted
    | None => prefix ++ ":" ++ payload
    end.
Proof.
  intros Hprefix Hpayload. unfold decrypt.
  change (":" ++ payload) with (String ":" payload).
  rewrite split_prefix by by apply isHex_no_colon.
  by rewrite split_no_sep by by apply isHex_no_colon.
Qed.

(** C10, as stated, fails: when the decipher throws, as the [final] of
    an authenticated mode does when no authentication tag was set, the
    [catch] returns the input with its prefix, so that two prefixes give
    two results for one payload. *)
Lemma decrypt_fallback_keeps_prefix :
  decrypt (fun _ => None) "00:ab" = "00:ab"
  /\ decrypt (fun _ => None) "ff:ab" = "ff:ab".
Proof. split; reflexivity. Qed.

(** C10, amended. For every hexadecimal payload [c] that the decipher
    accepts and any two hexadecimal prefixes [i1] and [i2],
    [decrypt (i1 + ":" + c)] and [decrypt (i2 + ":" + c)] are the same
    plaintext: the prefix is parsed and never used.  When the decipher
    throws on [c], [decrypt] returns its whole input, prefix included.
    Two runs of [encrypt] on one plaintext produce the same payload
    behind their prefixes. *)
Theorem decrypt_ignores_prefix :
  forall (toHex cipherHex : string -> string) (decipherUtf8 : string -> option string)
         (i1 i2 c : string),
    isHex i1 = true -> isHex i2 = true -> isHex c = true ->
    match decipherUtf8 c with
    | Some plaintext =>
        decrypt decipherUtf8 (i1 ++ ":" ++ c) = plaintext
        /\ decrypt decipherUtf8 (i2 ++ ":" ++ c) = plaintext
    | None =>
        decrypt decipherUtf8 (i1 ++ ":" ++ c) = i1 ++ ":" ++ c
        /\ decrypt decipherUtf8 (i2 ++ ":" ++ c) = i2 ++ ":" ++ c
    end
    /\ forall text iv1 iv2,
         encrypt toHex cipherHex iv1 text = toHex iv1 ++ ":" ++ cipherHex text
         /\ encrypt toHex cipherHex iv2 text = toHex iv2 ++ ":" ++ cipherHex text.
Proof.
  intros toHex cipherHex decipherUtf8 i1 i2 c H1 H2 Hc. split; [|done].
  rewrite !decrypt_prefixed by done. by destruct (decipherUtf8 c).
Qed.

(** With a decipher that accepts the payload, the prefixes [00] and [ff]
    give the same plaintext. *)
Lemma decrypt_ignores_prefix_witness :
  decrypt (fun encrypted => Some ("plain of " ++ encrypted)) "00:ab" = "plain of ab"
  /\ decrypt (fun encrypted => Some ("plain of " ++ encrypted)) "ff:ab" = "plain of ab".
Proof.
  exact (proj1 (decrypt_ignores_prefix (fun _ => "00") (fun _ => "ab")
                  (fun encrypted => Some ("plain of " ++ encrypted))
                  "00" "ff" "ab" eq_refl eq_refl eq_refl)).
Defined.

(** ** CSV parsing *)

(** *** The client's parser *)

Lemma trimStart_allWhiteSpace (s : string) : allWhiteSpace s = true -> trimStart s = "".
Proof.
  induction s as [|c s IH]; [done|]. cbn [allWhiteSpace trimStart].
  intros [Hc Hs]%andb_true_iff. rewrite Hc. by apply IH.
Qed.

Lemma trim_allWhiteSpace (s : string) : allWhiteSpace s = true -> trim s = "".
Proof. intros Hs. unfold trim. by rewrite trimStart_allWhiteSpace. Qed.

Lemma split_allWhiteSpace (sep : ascii) (s : string) :
  allWhiteSpace s = true ->
  Forall (fun piece => allWhiteSpace piece = true) (split sep s).
Proof.
  induction s as [|c s IH]; cbn [allWhiteSpace split].
  - intros _. by repeat constructor.
  - intros [Hc Hs]%andb_true_iff. specialize (IH Hs).
    destruct (Ascii.eqb c sep); [by constructor|].
    destruct IH as [|piece pieces Hpiece Hpieces]; constructor; try done.
    + cbn [allWhiteSpace]. by rewrite Hc.
    + cbn [allWhiteSpace]. by rewrite Hc, Hpiece.
Qed.

(** A file with white space only has no line left after the filter, and
    is refused. *)
Lemma parseCSVFile_blank (csv : string) :
  allWhiteSpace csv = true -> parseCSVFile csv = Rejected "CSV file is empty".
Proof.
  intros Hblank. unfold parseCSVFile.
  pose proof (split_allWhiteSpace newline csv Hblank) as Hlines.
  induction Hlines as [|line lines Hline Hlines IH]; [done|].
  rewrite filter_cons_False; [done|].
  by rewrite trim_allWhiteSpace.
Qed.

(** A file with a header line only, with or without the final newline,
    is accepted with no row. *)
Lemma parseCSVFile_header_only (line : string) :
  hasChar newline line = false -> trim line <> "" ->
  parseCSVFile line
  = Resolved {| headers := cleanCell <$> split "," line; rows := [] |}
  /\ parseCSVFile (line ++ String newline "")
     = Resolved {| headers := cleanCell <$> split "," line; rows := [] |}.
Proof.
  intros Hline Hfull. apply truthy_spec in Hfull. unfold parseCSVFile. split.
  - rewrite split_no_sep by done.
    by rewrite filter_cons_True, filter_nil by done.
  - rewrite split_prefix by done. change (split newline "") with [""].
    rewrite filter_cons_True by done.
    by rewrite filter_cons_False, filter_nil by done.
Qed.

(** *** The server's parser *)

(** [parseCSV] has no check of its own: it rejects only when the stream
    emits an error. *)
Lemma parseCSVStream_Rejected (events : list csvEvent) (s : parserState) (reason : string) :
  parseCSVStream events s = Rejected reason -> EvError reason ∈ events.
Proof.
  revert s. induction events as [|event events IH]; intros s; [done|].
  destruct event; cbn [parseCSVStream]; intros Hrejected.
  - apply list_elem_of_further. by eapply IH.
  - apply list_elem_of_further. by eapply IH.
  - done.
  - injection Hrejected as ->. apply list_elem_of_here.
Qed.

(** The route on a stream that ends at once. *)
Lemma parseUpload_empty_stream (node : NodeRuntime) (f : UploadedFile) :
  csvParser (buffer f) = [EvEnd] ->
  parseUpload (Some f)
  = inl {| sum_headers := []; sum_detectedMapping := ∅; sum_rowCount := 0 |}.
Proof. intros Hstream. unfold parseUpload, parseCSV. by rewrite Hstream. Qed.

(** The route on a stream with a header line and no row. *)
Lemma parseUpload_header_only (node : NodeRuntime) (f : UploadedFile) (headerList : list string) :
  csvParser (buffer f) = [EvHeaders headerList; EvEnd] ->
  exists summary, parseUpload (Some f) = inl summary
                  /\ sum_headers summary = headerList /\ sum_rowCount summary = 0.
Proof.
  intros Hstream. unfold parseUpload, parseCSV. rewrite Hstream.
  eexists. split; [reflexivity|]. done.
Qed.

(** C5, on the code: the server's [parseCSV] resolves, with no header
    and no row, on the stream of an empty buffer (the tokenizer emits
    ['end'] and nothing else), where the claim asks for an error; the
    client's [parseCSVFile] on the empty text rejects with
    [CSV file is empty], as the claim says. *)
Theorem parseCSV_empty_stream_resolves :
  parseCSVStream [EvEnd] parserInit = Resolved {| headers := []; rows := [] |}
  /\ parseCSVFile "" = Rejected "CSV file is empty".
Proof. split; reflexivity. Qed.

(** * Further properties *)

(** ** Encryption utilities: a text without separator *)

(** X1. [decrypt] on a text without colon: whatever the decipher does,
    the text comes back unchanged (there is nothing to decipher, and the
    error is caught). *)
Theorem decrypt_without_separator :
  forall (decipherUtf8 : string -> option string) (encryptedData : string),
    hasChar ":" encryptedData = false ->
    decrypt decipherUtf8 encryptedData = encryptedData.
Proof.
  intros decipherUtf8 encryptedData Hfree. unfold decrypt.
  by rewrite split_no_sep.
Qed.

Lemma decrypt_without_separator_witness :
  decrypt (fun encrypted => Some ("plain of " ++ encrypted)) "plain text" = "plain text".
Proof. exact (decrypt_without_separator _ "plain text" eq_refl). Defined.

(** ** Authentication *)

Lemma removeFirst_unfold (pattern s : string) :
  removeFirst pattern s
  = if startsWith s pattern then dropChars (String.length pattern) s
    else match s with
         | EmptyString => EmptyString
         | String c s' => String c (removeFirst pattern s')
         end.
Proof. by destruct s. Qed.

Lemma startsWith_app (pattern s : string) : startsWith (pattern ++ s) pattern = true.
Proof.
  induction pattern as [|c pattern IH]; [by destruct s|].
  change (String c pattern ++ s) with (String c (pattern ++ s)).
  cbn [startsWith]. by rewrite Ascii.eqb_refl.
Qed.

Lemma dropChars_app (pattern s : string) :
  dropChars (String.length pattern) (pattern ++ s) = s.
Proof. induction pattern as [|c pattern IH]; [done|]. exact IH. Qed.

Lemma removeFirst_prefix (pattern s : string) : removeFirst pattern (pattern ++ s) = s.
Proof. by rewrite removeFirst_unfold, startsWith_app, dropChars_app. Qed.

(** X3. Login round trip: when [POST /api/auth] accepts a password, the
    token of its answer, once stored by [setAuthToken] and sent by the
    pages as the [Bearer] header, passes [requireAuth]; a request
    without the header never passes. *)
Theorem login_token_passes_requireAuth :
  forall (accessPassword : option string) (password token : string) (st : TokenStore),
    authRoute accessPassword (Some password) = Some token ->
    (getAuthToken (setAuthToken token st)).1 = Some token
    /\ requireAuth accessPassword
         (Some (authorizationHeader (getAuthToken (setAuthToken token st)).1)) = true
    /\ requireAuth accessPassword None = false.
Proof.
  intros accessPassword password token st Hlogin. cbn [authRoute] in Hlogin.
  destruct (String.eqb_spec password (validPassword accessPassword)) as [Hvalid|]; [|done].
  injection Hlogin as <-.
  assert (Hget : (getAuthToken (setAuthToken password st)).1 = Some password).
  { unfold getAuthToken, setAuthToken. cbn [authToken localStorage].
    destruct (truthy password); [done|]. cbn [fst]. apply lookup_insert_eq. }
  rewrite Hget. repeat split.
  unfold requireAuth, authorizationHeader. rewrite removeFirst_prefix.
  by apply String.eqb_eq.
Qed.

Lemma login_token_passes_requireAuth_witness :
  requireAuth None
    (Some (authorizationHeader
             (getAuthToken (setAuthToken "demo123" {| authToken := None; localStorage := ∅ |})).1))
  = true.
Proof.
  exact (proj1 (proj2 (login_token_passes_requireAuth None "demo123" "demo123"
                         {| authToken := None; localStorage := ∅ |} eq_refl))).
Defined.

(** X4. The token store of the client: a token that was set is read
    back, also after a reload of the page (the module variable is lost,
    [localStorage] is kept); after [clearAuthToken] no token is read and
    the client is not authenticated; after [setAuthToken] the client is
    authenticated exactly when the token is not empty. *)
Theorem authToken_round_trip :
  forall (token : string) (st : TokenStore),
    (getAuthToken (setAuthToken token st)).1 = Some token
    /\ (getAuthToken {| authToken := None;
                        localStorage := localStorage (setAuthToken token st) |}).1 = Some token
    /\ (getAuthToken (clearAuthToken st)).1 = None
    /\ (isAuthenticated (clearAuthToken st)).1 = false
    /\ (isAuthenticated (setAuthToken token st)).1 = truthy token.
Proof.
  intros token st.
  assert (Hget : (getAuthToken (setAuthToken token st)).1 = Some token).
  { unfold getAuthToken, setAuthToken. cbn [authToken localStorage].
    destruct (truthy token); [done|]. cbn [fst]. apply lookup_insert_eq. }
  assert (Hclear : (getAuthToken (clearAuthToken st)).1 = None).
  { unfold getAuthToken, clearAuthToken. cbn [authToken localStorage fst].
    apply lookup_delete_eq. }
  repeat split; try done.
  - unfold getAuthToken, setAuthToken. cbn [authToken localStorage fst].
    apply lookup_insert_eq.
  - unfold isAuthenticated. destruct (getAuthToken (clearAuthToken st)) as [t st'].
    cbn [fst] in *. by rewrite Hclear.
  - unfold isAuthenticated. destruct (getAuthToken (setAuthToken token st)) as [t st'].
    cbn [fst] in *. by rewrite Hget.
Qed.

(** ** File checks *)

Lemma endsWith_toLowerCase (s suffix : string) :
  toLowerCase suffix = suffix ->
  endsWith s suffix = true -> endsWith (toLowerCase s) suffix = true.
Proof.
  intros Hlower. induction s as [|c s IH]; cbn [endsWith toLowerCase].
  - rewrite orb_false_r. intros Hempty%String.eqb_eq. subst suffix. reflexivity.
  - intros [Heq|Htail]%orb_true_iff.
    + apply String.eqb_eq in Heq. rewrite <- Hlower, <- Heq. cbn [toLowerCase].
      by rewrite String.eqb_refl.
    + by rewrite (IH Htail), orb_true_r.
Qed.

(** X5. The three file checks are nested: a file that the upload dialog
    takes passes the server's [fileFilter], and a file that passes the
    [fileFilter] and is not larger than 10 MiB is valid for the client's
    [validateCSVFile]. *)
Theorem file_checks_nested :
  forall (name type : string) (fileSize : N),
    (fileSize <= maxFileSize)%N ->
    (forall proposal, handleFileSelect name type = Some proposal ->
                      fileFilter type name = true)
    /\ (fileFilter type name = true -> validateCSVFile name type fileSize = None).
Proof.
  intros name type fileSize Hsize. apply N.ltb_ge in Hsize. split.
  - unfold handleFileSelect, fileFilter. intros proposal.
    by destruct (String.eqb type "text/csv").
  - unfold validateCSVFile, fileFilter. rewrite Hsize.
    intros [Htype|Hname]%orb_true_iff.
    + by rewrite Htype, andb_false_r.
    + by rewrite (endsWith_toLowerCase name ".csv" eq_refl Hname).
Qed.

Lemma file_checks_nested_witness :
  validateCSVFile "leads.csv" "application/octet-stream" 2048 = None.
Proof.
  apply (file_checks_nested "leads.csv" "application/octet-stream" 2048);
    [discriminate|reflexivity].
Defined.

(** ** Mapping validation and detection, composed *)

(** The validation of an object of strings cannot fail, and keeps the
    entries under the standard fields. *)
Lemma parseShape_strings (fieldMapping : gmap string string) :
  parseShape (JString <$> fieldMapping)
  = Some (filter (fun entry => entry.1 ∈ standardFields) fieldMapping).
Proof.
  unfold parseShape.
  destruct (foldr _ (Some ∅) standardFields) as [out|] eqn:Hparse.
  - f_equal. apply map_eq. intros k. apply option_eq. intros s.
    rewrite (parse_fold_Some _ _ _ Hparse), map_lookup_filter_Some, lookup_fmap.
    cbn [fst]. destruct (fieldMapping !! k) as [s'|]; cbn; naive_solver.
  - apply parse_fold_None in Hparse as (field & v & _ & Hv & Hnot).
    rewrite lookup_fmap in Hv. destruct (fieldMapping !! field) as [s|]; [|done].
    injection Hv as <-. by destruct (Hnot s).
Qed.

(** X6. Validation of a mapping of strings: a submitted object whose
    values are all strings is never refused, and the validated mapping
    is the submitted one restricted to the 11 standard fields; a mapping
    that only has standard fields comes back unchanged. *)
Theorem fieldMappingSchema_parse_strings :
  forall fieldMapping : gmap string string,
    fieldMappingSchema_parse (mappingToJson fieldMapping)
    = Some (filter (fun entry => entry.1 ∈ standardFields) fieldMapping)
    /\ ((forall k, is_Some (fieldMapping !! k) -> k ∈ standardFields) ->
        fieldMappingSchema_parse (mappingToJson fieldMapping) = Some fieldMapping).
Proof.
  intros fieldMapping. cbn [mappingToJson fieldMappingSchema_parse].
  rewrite parseShape_strings. split; [done|].
  intros Hkeys. f_equal. apply map_filter_id. intros k s Hk. cbn [fst].
  apply Hkeys. by eexists.
Qed.

Lemma detectFieldsWith_keys (normalize : string -> string) (headers : list string) (k : string) :
  is_Some (detectFieldsWith normalize headers !! k) -> k ∈ standardFields.
Proof.
  unfold detectFieldsWith. intros [v Hk]. revert Hk.
  assert (Hgen : forall mapping : gmap string string,
             foldl (scanHeader normalize) mapping headers !! k = Some v ->
             mapping !! k = Some v \/ k ∈ standardFields).
  { induction headers as [|header headers IH]; intros mapping Hv; [by left|].
    cbn [foldl] in Hv. apply IH in Hv as [Hv|Hv]; [|by right].
    apply scanHeader_entries in Hv as [Hv|[Hv _]]; [by left|].
    right. by rewrite <- fieldPatterns_keys. }
  intros Hk. apply Hgen in Hk as [Hk|Hk]; [|done]. by rewrite lookup_empty in Hk.
Qed.

(** X7. Detection and validation compose: the mapping proposed by
    [detectFields], submitted as it is, passes the validation of the
    upload route and comes back unchanged. *)
Theorem detected_mapping_is_valid :
  forall headers : list string,
    fieldMappingSchema_parse (mappingToJson (detectFields headers))
    = Some (detectFields headers).
Proof.
  intros headers. cbn [mappingToJson fieldMappingSchema_parse].
  rewrite parseShape_strings. f_equal. apply map_filter_id.
  intros k s Hk. cbn [fst]. apply (detectFieldsWith_keys normalizeHeader headers).
  by eexists.
Qed.

Section DetectionComposition.
Variable normalize : string -> string.

Lemma scan_fold_union (header : string) (table : list (string * list string)) :
  forall acc mapping : gmap string string,
    foldl (fun mapping '(field, patterns) =>
             if matchesField normalize patterns header
             then <[field := header]> mapping
             else mapping) (acc ∪ mapping) table
    = foldl (fun mapping '(field, patterns) =>
               if matchesField normalize patterns header
               then <[field := header]> mapping
               else mapping) acc table ∪ mapping.
Proof.
  induction table as [|[field patterns] table IH]; intros acc mapping; [done|].
  cbn [foldl]. destruct (matchesField normalize patterns header); [|apply IH].
  rewrite insert_union_l. apply IH.
Qed.

Lemma scanHeader_union (header : string) (mapping : gmap string string) :
  scanHeader normalize mapping header = scanHeader normalize ∅ header ∪ mapping.
Proof.
  unfold scanHeader. rewrite <- scan_fold_union. by rewrite (left_id_L ∅ (∪)).
Qed.

Lemma scan_headers_union (headers : list string) :
  forall mapping : gmap string string,
    foldl (scanHeader normalize) mapping headers
    = foldl (scanHeader normalize) ∅ headers ∪ mapping.
Proof.
  induction headers as [|header headers IH]; intros mapping.
  - cbn [foldl]. by rewrite (left_id_L ∅ (∪)).
  - cbn [foldl]. rewrite IH, (IH (scanHeader normalize ∅ header)).
    by rewrite (scanHeader_union header mapping), (assoc_L (∪)).
Qed.

End DetectionComposition.

(** X8. Detection over two header lists in a row: the mapping detected
    on [headers1 ++ headers2] is the mapping detected on [headers2],
    completed by the mapping detected on [headers1] for the fields that
    no header of [headers2] matches. *)
Theorem detectFields_app :
  forall (normalize : string -> string) (headers1 headers2 : list string),
    detectFieldsWith normalize (headers1 ++ headers2)
    = detectFieldsWith normalize headers2 ∪ detectFieldsWith normalize headers1.
Proof.
  intros normalize headers1 headers2. unfold detectFieldsWith.
  rewrite foldl_app. apply scan_headers_union.
Qed.

(** X9. The sentinels of the upload dialog: after the operator chooses
    [skip] or [none] for a field, the submitted mapping passes validation
    without that field, and no contact built from it has the field; any
    other choice for a standard field is what validation returns for the
    field. *)
Theorem updateFieldMapping_sentinels :
  forall (field value : string) (prev : gmap string string),
    exists fieldMapping,
      fieldMappingSchema_parse (mappingToJson (updateFieldMapping field value prev))
      = Some fieldMapping
      /\ (value = "skip" \/ value = "none" ->
          fieldMapping !! field = None
          /\ forall row, transformRow fieldMapping row !! field = None)
      /\ (value <> "skip" -> value <> "none" -> field ∈ standardFields ->
          fieldMapping !! field = Some value).
Proof.
  intros field value prev. eexists. split.
  { cbn [mappingToJson fieldMappingSchema_parse]. apply parseShape_strings. }
  unfold updateFieldMapping. split.
  - intros Hsentinel.
    assert (String.eqb value "skip" || String.eqb value "none" = true) as ->.
    { destruct Hsentinel as [-> | ->]; reflexivity. }
    assert (Hgone : filter (fun entry => entry.1 ∈ standardFields) (delete field prev)
                    !! field = None).
    { apply map_lookup_filter_None. left. apply lookup_delete_eq. }
    split; [done|]. intros row. rewrite transformRow_lookup, Hgone. by destruct (decide _).
  - intros Hskip Hnone Hfield.
    apply String.eqb_neq in Hskip, Hnone. rewrite Hskip, Hnone. cbn [orb].
    apply map_lookup_filter_Some. split; [apply lookup_insert_eq|done].
Qed.

(** ** The client's parser: shape of the rows *)

Section BuildRow.
Variable values : list string.

Let put (row : gmap string string) (entry : nat * string) : gmap string string :=
  let '(index, header) := entry in setProperty header (cellOrEmpty values index) row.

Lemma buildRow_fold_keys (entries : list (nat * string)) :
  forall (row : gmap string string) (k : string),
    is_Some (foldl put row entries !! k)
    <-> is_Some (row !! k) \/ (k ∈ entries.*2 /\ k <> "__proto__").
Proof.
  induction entries as [|[index header] entries IH]; intros row k; cbn [foldl fmap list_fmap].
  - rewrite elem_of_nil. naive_solver.
  - rewrite IH. unfold put. rewrite setProperty_lookup, elem_of_cons. cbn [snd].
    destruct (decide (k = header /\ header <> "__proto__")) as [[-> Hproto]|Hne];
      [naive_solver|].
    split; [naive_solver|]. intros [Hk|[[->|Hk] Hproto]]; [by left| |by right].
    destruct Hne. by split.
Qed.

Lemma buildRow_fold_lookup (entries : list (nat * string)) (index : nat) (header : string) :
  NoDup entries.*2 ->
  (index, header) ∈ entries ->
  header <> "__proto__" ->
  forall row : gmap string string,
    foldl put row entries !! header = Some (cellOrEmpty values index).
Proof.
  induction entries as [|[i h] entries IH]; intros Hnd Hin Hproto row.
  - by apply elem_of_nil in Hin.
  - cbn [fmap list_fmap snd] in Hnd. apply NoDup_cons in Hnd as [Hfresh Hnd].
    cbn [foldl]. apply elem_of_cons in Hin as [Heq|Hin]; [|by apply IH].
    injection Heq as <- <-.
    assert (Hkeep : forall r : gmap string string,
               r !! header = Some (cellOrEmpty values index) ->
               foldl put r entries !! header = Some (cellOrEmpty values index)).
    { clear IH Hnd. induction entries as [|[i' h'] entries IH']; intros r Hr; [done|].
      cbn [fmap list_fmap snd] in Hfresh. apply not_elem_of_cons in Hfresh as [Hne Hfresh].
      cbn [foldl]. apply IH'; [done|]. unfold put.
      by rewrite setProperty_lookup, decide_False by naive_solver. }
    apply Hkeep. unfold put. by rewrite setProperty_lookup, decide_True.
Qed.

End BuildRow.

Lemma indexed_headers_snd (headers : list string) :
  (imap (fun index header => (index, header)) headers).*2 = headers.
Proof.
  rewrite fmap_imap. rewrite (imap_ext _ (const id)) by done.
  by rewrite imap_const, list_fmap_id.
Qed.

Lemma buildRow_keys (headers values : list string) (k : string) :
  is_Some (buildRow headers values !! k) <-> k ∈ headers /\ k <> "__proto__".
Proof.
  unfold buildRow.
  rewrite (buildRow_fold_keys values), indexed_headers_snd, lookup_empty.
  split; [|by right]. intros [[? [=]]|Hk]; done.
Qed.

Lemma buildRow_lookup (headers values : list string) (index : nat) (header : string) :
  NoDup headers -> headers !! index = Some header -> header <> "__proto__" ->
  buildRow headers values !! header = Some (cellOrEmpty values index).
Proof.
  intros Hnd Hindex Hproto. unfold buildRow.
  apply (buildRow_fold_lookup values); [by rewrite indexed_headers_snd| |done].
  apply elem_of_lookup_imap. by exists index, header.
Qed.

(** No row has a property [__proto__] of its own: reading it gives the
    prototype. *)
Lemma buildRow_proto (headers values : list string) :
  getProperty (buildRow headers values) "__proto__" = Some (PrototypeMember "__proto__").
Proof.
  unfold getProperty.
  destruct (buildRow headers values !! "__proto__") as [cell|] eqn:Hcell; [|done].
  assert (Hsome : is_Some (buildRow headers values !! "__proto__")) by by eexists.
  by apply buildRow_keys in Hsome as [_ []].
Qed.

Lemma parseCSVFile_Resolved (csv : string) (parsed : ParsedCsv) :
  parseCSVFile csv = Resolved parsed ->
  exists headerLine dataLines,
    keptLines csv = headerLine :: dataLines
    /\ headers parsed = cleanCell <$> split "," headerLine
    /\ rows parsed
       = (fun line => buildRow (headers parsed) (cleanCell <$> split "," line)) <$> dataLines.
Proof.
  unfold parseCSVFile. fold (keptLines csv).
  destruct (keptLines csv) as [|headerLine dataLines]; [done|].
  intros [= <-]. by exists headerLine, dataLines.
Qed.

(** X10. Rows of the client's parser: whenever [parseCSVFile] accepts a
    text, there is one row per kept line after the header line, and the
    keys of every row are exactly the headers other than [__proto__],
    however many cells its line has; under a header [__proto__] no cell
    is stored, and reading that key gives the prototype of the row. *)
Theorem parseCSVFile_rows_have_header_keys :
  forall (csv : string) (parsed : ParsedCsv),
    parseCSVFile csv = Resolved parsed ->
    S (length (rows parsed)) = length (keptLines csv)
    /\ forall row, row ∈ rows parsed ->
          (forall k, is_Some (row !! k) <-> k ∈ headers parsed /\ k <> "__proto__")
          /\ getProperty row "__proto__" = Some (PrototypeMember "__proto__").
Proof.
  intros csv parsed (headerLine & dataLines & Hlines & Hheaders & Hrows)%parseCSVFile_Resolved.
  rewrite Hlines, Hrows, length_fmap. split; [done|].
  intros row (line & -> & _)%list_elem_of_fmap. split.
  - intros k. apply buildRow_keys.
  - apply buildRow_proto.
Qed.

(** A line with one cell under two headers: the row has both keys.  A
    cell under the header [__proto__] is not stored. *)
Lemma parseCSVFile_rows_have_header_keys_witness :
  parseCSVFile shortRowCsv = Resolved shortRowParsed
  /\ (is_Some (shortRow !! "b") <-> "b" ∈ ["a"; "b"] /\ "b" <> "__proto__")
  /\ parseCSVFile protoRowCsv = Resolved protoRowParsed
  /\ (is_Some (protoRow !! "__proto__")
      <-> "__proto__" ∈ ["__proto__"; "a"] /\ "__proto__" <> "__proto__").
Proof.
  assert (Hparsed : parseCSVFile shortRowCsv = Resolved shortRowParsed)
    by (vm_compute; reflexivity).
  assert (Hproto : parseCSVFile protoRowCsv = Resolved protoRowParsed)
    by (vm_compute; reflexivity).
  split; [exact Hparsed|]. split; [|split; [exact Hproto|]].
  - apply (proj2 (parseCSVFile_rows_have_header_keys shortRowCsv shortRowParsed Hparsed)).
    apply list_elem_of_here.
  - apply (proj2 (parseCSVFile_rows_have_header_keys protoRowCsv protoRowParsed Hproto)).
    apply list_elem_of_here.
Defined.

(** X11. Cells of the client's parser: when the headers of an accepted
    text are pairwise distinct, the row of the [n]-th kept data line
    holds, under the header at position [i], the cleaned [i]-th cell of
    the line, and the empty string when the line has no [i]-th cell; the
    header [__proto__] apart, under which the row holds nothing. *)
Theorem parseCSVFile_cells_by_position :
  forall (csv : string) (parsed : ParsedCsv),
    parseCSVFile csv = Resolved parsed ->
    NoDup (headers parsed) ->
    forall n row, rows parsed !! n = Some row ->
      exists line,
        keptLines csv !! S n = Some line
        /\ forall i header, headers parsed !! i = Some header ->
             row !! header
             = if decide (header = "__proto__") then None
               else Some (cellOrEmpty (cleanCell <$> split "," line) i).
Proof.
  intros csv parsed (headerLine & dataLines & Hlines & Hheaders & Hrows)%parseCSVFile_Resolved
    Hnd n row Hrow.
  rewrite Hrows, list_lookup_fmap in Hrow.
  destruct (dataLines !! n) as [line|] eqn:Hline; [|done]. injection Hrow as <-.
  exists line. rewrite Hlines. split; [done|].
  intros i header Hi. destruct (decide (header = "__proto__")) as [->|Hproto].
  - apply eq_None_not_Some. by intros [_ []]%buildRow_keys.
  - by apply buildRow_lookup.
Qed.

(** The second header has no cell in the data line: its cell is empty. *)
Lemma parseCSVFile_cells_by_position_witness :
  parseCSVFile shortRowCsv = Resolved shortRowParsed
  /\ exists line,
       keptLines shortRowCsv !! 1 = Some line
       /\ forall i header, ["a"; "b"] !! i = Some header ->
            shortRow !! header
            = if decide (header = "__proto__") then None
              else Some (cellOrEmpty (cleanCell <$> split "," line) i).
Proof.
  assert (Hparsed : parseCSVFile shortRowCsv = Resolved shortRowParsed)
    by (vm_compute; reflexivity).
  split; [exact Hparsed|].
  apply (parseCSVFile_cells_by_position shortRowCsv shortRowParsed Hparsed).
  - repeat constructor; rewrite ?not_elem_of_cons; repeat split;
      try discriminate; apply not_elem_of_nil.
  - reflexivity.
Defined.

Lemma stripQuotes_no_quote (s : string) : hasChar doubleQuote (stripQuotes s) = false.
Proof.
  induction s as [|c s IH]; [done|]. cbn [stripQuotes].
  change (ascii_of_nat 34) with doubleQuote.
  destruct (Ascii.eqb c doubleQuote) eqn:Hc; [done|].
  cbn [hasChar]. by rewrite Hc, IH.
Qed.

Lemma cellOrEmpty_no_quote (cells : list string) (index : nat) :
  hasChar doubleQuote (cellOrEmpty (cleanCell <$> cells) index) = false.
Proof.
  unfold cellOrEmpty. rewrite list_lookup_fmap.
  destruct (cells !! index); [apply stripQuotes_no_quote|done].
Qed.

Lemma buildRow_values (headers values : list string) (k v : string) :
  buildRow headers values !! k = Some v -> exists index, v = cellOrEmpty values index.
Proof.
  unfold buildRow.
  generalize (imap (fun index header => (index, header)) headers) as entries.
  intros entries.
  assert (Hgen : forall row : gmap string string,
             foldl (fun row '(index, header) =>
                      setProperty header (cellOrEmpty values index) row)
                   row entries !! k = Some v ->
             row !! k = Some v \/ exists index, v = cellOrEmpty values index).
  { induction entries as [|[i h] entries IH]; intros row Hv; [by left|].
    cbn [foldl] in Hv. apply IH in Hv as [Hv|Hv]; [|by right].
    rewrite setProperty_lookup in Hv. destruct (decide _); [|by left].
    injection Hv as <-. right. by exists i. }
  intros Hv. apply Hgen in Hv as [Hv|Hv]; [|done]. by rewrite lookup_empty in Hv.
Qed.

(** X12. The client's parser removes every double quote: no header and
    no cell of an accepted text contains one. *)
Theorem parseCSVFile_no_double_quote :
  forall (csv : string) (parsed : ParsedCsv),
    parseCSVFile csv = Resolved parsed ->
    Forall (fun header => hasChar doubleQuote header = false) (headers parsed)
    /\ forall row k v, row ∈ rows parsed -> row !! k = Some v ->
                       hasChar doubleQuote v = false.
Proof.
  intros csv parsed (headerLine & dataLines & Hlines & Hheaders & Hrows)%parseCSVFile_Resolved.
  split.
  - rewrite Hheaders. apply Forall_fmap, Forall_forall. intros cell _.
    apply stripQuotes_no_quote.
  - intros row k v Hin Hv. rewrite Hrows in Hin.
    apply list_elem_of_fmap in Hin as (line & -> & _).
    apply buildRow_values in Hv as [index ->]. apply cellOrEmpty_no_quote.
Qed.

(** A quoted cell loses its quotes. *)
Lemma parseCSVFile_no_double_quote_witness :
  parseCSVFile (String doubleQuote (String "a" (String doubleQuote "")))
  = Resolved {| headers := ["a"]; rows := [] |}
  /\ Forall (fun header => hasChar doubleQuote header = false) ["a"].
Proof.
  assert (Hparsed : parseCSVFile (String doubleQuote (String "a" (String doubleQuote "")))
                    = Resolved {| headers := ["a"]; rows := [] |})
    by reflexivity.
  split; [exact Hparsed|].
  exact (proj1 (parseCSVFile_no_double_quote _ _ Hparsed)).
Defined.

(** *** When the client's parser refuses *)

Lemma trimEnd_empty (s : string) : trimEnd s = "" -> allWhiteSpace s = true.
Proof.
  induction s as [|c s IH]; [done|]. cbn [trimEnd allWhiteSpace].
  destruct (trimEnd s) as [|c' t]; [|done].
  destruct (isWhiteSpace c); [|done]. intros _. by apply IH.
Qed.

Lemma trimStart_allWhiteSpace_inv (s : string) :
  allWhiteSpace (trimStart s) = true -> allWhiteSpace s = true.
Proof.
  induction s as [|c s IH]; [done|]. cbn [trimStart allWhiteSpace].
  destruct (isWhiteSpace c) eqn:Hc; [exact IH|].
  cbn [allWhiteSpace]. by rewrite Hc.
Qed.

Lemma trim_empty (s : string) : trim s = "" -> allWhiteSpace s = true.
Proof. intros Htrim. by apply trimStart_allWhiteSpace_inv, trimEnd_empty. Qed.

Lemma split_allWhiteSpace_inv (sep : ascii) (s : string) :
  isWhiteSpace sep = true ->
  Forall (fun piece => allWhiteSpace piece = true) (split sep s) ->
  allWhiteSpace s = true.
Proof.
  intros Hsep. induction s as [|c s IH]; [done|]. cbn [split allWhiteSpace].
  destruct (Ascii.eqb_spec c sep) as [->|Hne].
  - intros [_ Hrest]%Forall_cons. by rewrite Hsep, IH.
  - destruct (split sep s) as [|piece pieces].
    + intros [Hc _]%Forall_cons. cbn [allWhiteSpace] in Hc.
      apply andb_true_iff in Hc as [-> _]. by apply IH.
    + intros [Hc Hrest]%Forall_cons. cbn [allWhiteSpace] in Hc.
      apply andb_true_iff in Hc as [-> Hpiece]. apply IH. by constructor.
Qed.

(** X13. The client's parser refuses exactly the blank texts: the
    promise of [parseCSVFile] is rejected, with [CSV file is empty],
    when every character of the text is white space, and is resolved in
    every other case. *)
Theorem parseCSVFile_rejects_iff_blank :
  forall csv : string,
    if allWhiteSpace csv
    then parseCSVFile csv = Rejected "CSV file is empty"
    else exists parsed, parseCSVFile csv = Resolved parsed.
Proof.
  intros csv. destruct (allWhiteSpace csv) eqn:Hblank; [by apply parseCSVFile_blank|].
  unfold parseCSVFile.
  destruct (filter _ (split newline csv)) as [|headerLine dataLines] eqn:Hkept;
    [|by eexists].
  exfalso. assert (allWhiteSpace csv = true); [|congruence].
  apply (split_allWhiteSpace_inv newline); [done|].
  apply Forall_forall. intros line Hline. apply trim_empty.
  destruct (trim line) eqn:Htrim; [done|]. exfalso.
  assert (Hin : line ∈ filter (fun line => truthy (trim line) = true) (split newline csv)).
  { apply list_elem_of_filter. split; [by rewrite Htrim|done]. }
  rewrite Hkept in Hin. by apply elem_of_nil in Hin.
Qed.

(** ** The server's parser: the stream of an ordinary file *)

Lemma parseCSVStream_data (dataRows : list (list (string * string)))
    (rest : list csvEvent) :
  forall s : parserState,
    ps_isFirstRow s = false \/ ps_headers s <> [] ->
    parseCSVStream ((EvData <$> dataRows) ++ EvEnd :: rest) s
    = Resolved {| headers := ps_headers s;
                  rows := (ps_rows s ++ (ownProperties <$> dataRows))%list |}.
Proof.
  induction dataRows as [|row dataRows IH]; intros s Hs.
  - cbn. by rewrite app_nil_r.
  - cbn [fmap list_fmap app parseCSVStream]. rewrite IH.
    + cbn [onData ps_headers ps_rows].
      assert (ps_isFirstRow s && (length (ps_headers s) =? 0)%nat = false) as ->.
      { destruct Hs as [->|Hne]; [done|].
        destruct (ps_headers s); [done|]. apply andb_false_r. }
      by rewrite <- app_assoc.
    + by left.
Qed.

(** X14. The server's [parseCSV] over the events of an ordinary file
    (the headers, then one ['data'] per row, then ['end']): the promise
    resolves with the rows in the order of their events and with the
    header list of the ['headers'] event; when that list is empty, the
    headers are the keys of the first row, in the order in which
    [Object.keys] lists them.  Events after ['end'] change nothing. *)
Theorem parseCSVStream_ordinary :
  forall (headerList : list string) (dataRows : list (list (string * string)))
         (rest : list csvEvent),
    parseCSVStream (EvHeaders headerList :: (EvData <$> dataRows) ++ EvEnd :: rest) parserInit
    = Resolved
        {| headers :=
             match headerList, dataRows with
             | [], row :: _ => objectKeys row
             | _, _ => headerList
             end;
           rows := ownProperties <$> dataRows |}.
Proof.
  intros headerList dataRows rest. cbn [parseCSVStream].
  destruct headerList as [|header headerList].
  - destruct dataRows as [|row dataRows]; [reflexivity|].
    cbn [fmap list_fmap app parseCSVStream]. rewrite parseCSVStream_data by by left.
    reflexivity.
  - rewrite parseCSVStream_data by by right. reflexivity.
Qed.

(** ** Export and re-import *)

Lemma string_app_cons (c : ascii) (s t : string) : String c s ++ t = String c (s ++ t).
Proof. reflexivity. Qed.

Lemma hasChar_app (c : ascii) (s t : string) :
  hasChar c (s ++ t) = hasChar c s || hasChar c t.
Proof.
  induction s as [|c' s IH]; [done|].
  rewrite string_app_cons. cbn [hasChar]. by rewrite IH, orb_assoc.
Qed.

Lemma escapeQuotes_plain (s : string) :
  hasChar doubleQuote s = false -> escapeQuotes s = s.
Proof.
  induction s as [|c s IH]; [done|]. cbn [hasChar escapeQuotes].
  intros [Hc Hs]%orb_false_iff. by rewrite Hc, IH.
Qed.

Lemma stripQuotes_plain (s : string) :
  hasChar doubleQuote s = false -> stripQuotes s = s.
Proof.
  induction s as [|c s IH]; [done|]. cbn [hasChar stripQuotes].
  change (ascii_of_nat 34) with doubleQuote.
  intros [Hc Hs]%orb_false_iff. by rewrite Hc, IH.
Qed.

Lemma stripQuotes_app (s t : string) : stripQuotes (s ++ t) = stripQuotes s ++ stripQuotes t.
Proof.
  induction s as [|c s IH]; [done|]. rewrite string_app_cons. cbn [stripQuotes].
  destruct (Ascii.eqb c (ascii_of_nat 34)); [done|]. by rewrite string_app_cons, IH.
Qed.

Lemma string_app_empty_r (s : string) : s ++ "" = s.
Proof. induction s as [|c s IH]; [done|]. by rewrite string_app_cons, IH. Qed.

(** A text that ends with a character that is no white space keeps its
    end under [trimEnd]. *)
Lemma trimEnd_closed (s : string) (c : ascii) :
  isWhiteSpace c = false -> trimEnd (s ++ String c "") = s ++ String c "".
Proof.
  intros Hc. induction s as [|c' s IH].
  - change ("" ++ String c "") with (String c ""). cbn [trimEnd]. by rewrite Hc.
  - rewrite string_app_cons. cbn [trimEnd]. rewrite IH.
    by destruct s.
Qed.

Lemma quoteField_plain (cell : string) :
  hasChar doubleQuote cell = false -> cleanCell (quoteField cell) = cell.
Proof.
  intros Hplain. unfold cleanCell, quoteField, trim.
  rewrite (escapeQuotes_plain _ Hplain). cbn [trimStart].
  change (isWhiteSpace doubleQuote) with false. cbn iota.
  change (String doubleQuote (cell ++ String doubleQuote ""))
    with (String doubleQuote cell ++ String doubleQuote "").
  rewrite trimEnd_closed by done.
  rewrite stripQuotes_app. cbn [stripQuotes].
  change (Ascii.eqb doubleQuote (ascii_of_nat 34)) with true. cbn iota.
  rewrite (stripQuotes_plain _ Hplain). apply string_app_empty_r.
Qed.

Lemma quoteField_hasChar (c : ascii) (cell : string) :
  Ascii.eqb doubleQuote c = false ->
  hasChar doubleQuote cell = false ->
  hasChar c (quoteField cell) = hasChar c cell.
Proof.
  intros Hc Hplain. unfold quoteField. rewrite (escapeQuotes_plain _ Hplain).
  cbn [hasChar]. rewrite Hc, hasChar_app. cbn [hasChar].
  by rewrite Hc, !orb_false_r.
Qed.

Lemma quoteField_kept (cell : string) : truthy (trim (quoteField cell ++ "")) = true.
Proof.
  unfold quoteField, trim. rewrite string_app_empty_r. cbn [trimStart].
  change (isWhiteSpace doubleQuote) with false. cbn iota. cbn [trimEnd].
  by destruct (trimEnd _).
Qed.

Section Joining.
Variable sep : ascii.

Lemma joinWith_cons (piece next : string) (rest : list string) :
  joinWith (String sep "") (piece :: next :: rest)
  = piece ++ String sep (joinWith (String sep "") (next :: rest)).
Proof. reflexivity. Qed.

(** Splitting what was joined gives the pieces back, when no piece
    contains the separator. *)
Lemma split_joinWith (pieces : list string) :
  pieces <> [] ->
  Forall (fun piece => hasChar sep piece = false) pieces ->
  split sep (joinWith (String sep "") pieces) = pieces.
Proof.
  induction pieces as [|piece [|next rest] IH]; intros Hne Hfree; [done| |].
  - apply Forall_cons in Hfree as [Hpiece _]. by apply split_no_sep.
  - apply Forall_cons in Hfree as [Hpiece Hrest].
    rewrite joinWith_cons, split_prefix by done. by rewrite IH.
Qed.

Lemma joinWith_hasChar (c : ascii) (pieces : list string) :
  Ascii.eqb sep c = false ->
  Forall (fun piece => hasChar c piece = false) pieces ->
  hasChar c (joinWith (String sep "") pieces) = false.
Proof.
  intros Hc. induction pieces as [|piece [|next rest] IH]; intros Hfree; [done| |].
  - by apply Forall_cons in Hfree as [Hpiece _].
  - apply Forall_cons in Hfree as [Hpiece Hrest].
    rewrite joinWith_cons, hasChar_app. cbn [hasChar]. by rewrite Hpiece, Hc, IH.
Qed.

Lemma joinWith_head (piece : string) (rest : list string) :
  exists tail, joinWith (String sep "") (piece :: rest) = piece ++ tail.
Proof.
  destruct rest as [|next rest]; [exists ""|by eexists].
  cbn. by rewrite string_app_empty_r.
Qed.

End Joining.

Lemma plainCell_spec (cell : string) :
  plainCell cell = true
  <-> hasChar "," cell = false /\ hasChar newline cell = false
      /\ hasChar doubleQuote cell = false.
Proof.
  unfold plainCell. rewrite !andb_true_iff, !negb_true_iff. naive_solver.
Qed.

(** One exported line, read back. *)
Lemma exported_line_cells (cells : list string) :
  cells <> [] ->
  Forall (fun cell => plainCell cell = true) cells ->
  cleanCell <$> split "," (joinWith "," (quoteField <$> cells)) = cells.
Proof.
  intros Hne Hplain.
  rewrite (split_joinWith "," (quoteField <$> cells)).
  - rewrite <- list_fmap_compose. rewrite <- (list_fmap_id cells) at 2.
    apply Forall_fmap_ext_1. eapply Forall_impl; [exact Hplain|].
    intros cell (_ & _ & Hq)%plainCell_spec. by apply quoteField_plain.
  - by destruct cells.
  - apply Forall_fmap. eapply Forall_impl; [exact Hplain|].
    intros cell (Hcomma & _ & Hq)%plainCell_spec. unfold compose.
    by rewrite quoteField_hasChar.
Qed.

Lemma exported_line_no_newline (cells : list string) :
  Forall (fun cell => plainCell cell = true) cells ->
  hasChar newline (joinWith "," (quoteField <$> cells)) = false.
Proof.
  intros Hplain. apply (joinWith_hasChar ","); [done|].
  apply Forall_fmap. eapply Forall_impl; [exact Hplain|].
  intros cell (_ & Hnl & Hq)%plainCell_spec. unfold compose.
  by rewrite quoteField_hasChar.
Qed.

Lemma exported_line_kept (cells : list string) :
  cells <> [] -> truthy (trim (joinWith "," (quoteField <$> cells))) = true.
Proof.
  destruct cells as [|cell cells]; [done|]. intros _. cbn [fmap list_fmap].
  destruct (joinWith_head "," (quoteField cell) (quoteField <$> cells)) as [tail ->].
  unfold quoteField, trim. rewrite string_app_cons. cbn [trimStart].
  change (isWhiteSpace doubleQuote) with false. cbn iota. cbn [trimEnd].
  by destruct (trimEnd _).
Qed.

Lemma filter_all {A} (P : A -> Prop) `{forall x, Decision (P x)} (l : list A) :
  Forall P l -> filter P l = l.
Proof.
  induction 1 as [|x l Hx Hl IH]; [done|]. by rewrite filter_cons_True, IH.
Qed.

Lemma exportCells_nonempty (contact : ProcessedContact) : exportCells contact <> [].
Proof. done. Qed.

Lemma exportHeaders_plain : Forall (fun cell => plainCell cell = true) exportHeaders.
Proof. repeat constructor. Qed.

(** X15. Export and re-import: when no exported cell contains a comma,
    a newline or a double quote, the client's parser reads the text of
    [exportToCSV] back as the header row of the export and one row per
    contact, which holds each cell of the contact under its header. *)
Theorem parseCSVFile_csvContent :
  forall contacts : list ProcessedContact,
    Forall (fun contact => Forall (fun cell => plainCell cell = true) (exportCells contact))
           contacts ->
    parseCSVFile (csvContent contacts)
    = Resolved
        {| headers := exportHeaders;
           rows := (fun contact => buildRow exportHeaders (exportCells contact)) <$> contacts |}
    /\ forall contact i header field,
         exportHeaders !! i = Some header -> standardFields !! i = Some field ->
         buildRow exportHeaders (exportCells contact) !! header
         = Some (fieldOrEmpty (pc_fields contact) field).
Proof.
  intros contacts Hplain. split.
  - unfold parseCSVFile, csvContent.
    set (allRows := exportHeaders :: (exportCells <$> contacts)).
    assert (Hrows : Forall (fun row => row <> [] /\ Forall (fun cell => plainCell cell = true) row)
                      allRows).
    { constructor; [split; [done|apply exportHeaders_plain]|].
      apply Forall_fmap. eapply Forall_impl; [exact Hplain|]. by intros contact Hcells. }
    rewrite (split_joinWith newline).
    + rewrite filter_all.
      * unfold allRows. rewrite fmap_cons. cbv beta iota.
        rewrite (exported_line_cells exportHeaders)
          by (done || apply exportHeaders_plain).
        do 2 f_equal. rewrite <- !list_fmap_compose.
        apply Forall_fmap_ext_1. eapply Forall_impl; [exact Hplain|].
        intros contact Hcells. unfold compose. by rewrite exported_line_cells.
      * apply Forall_fmap. eapply Forall_impl; [exact Hrows|].
        intros row [Hne _]. unfold compose. by apply exported_line_kept.
    + done.
    + apply Forall_fmap. eapply Forall_impl; [exact Hrows|].
      intros row [_ Hcells]. unfold compose. by apply exported_line_no_newline.
  - intros contact i header field Hheader Hfield.
    rewrite (buildRow_lookup exportHeaders _ i header); [|apply NoDup_ListNoDup|done|].
    + unfold cellOrEmpty, exportCells. by rewrite list_lookup_fmap, Hfield.
    + repeat constructor; cbn; intuition discriminate.
    + intros ->. apply list_elem_of_lookup_2 in Hheader. revert Hheader.
      unfold exportHeaders. rewrite !elem_of_cons, elem_of_nil. intuition discriminate.
Qed.

(** One contact, exported and read back. *)
Lemma parseCSVFile_csvContent_witness :
  parseCSVFile (csvContent [annContact])
  = Resolved
      {| headers := exportHeaders;
         rows := [buildRow exportHeaders (exportCells annContact)] |}.
Proof.
  apply (parseCSVFile_csvContent [annContact]). repeat constructor.
Defined.

(** ** Pagination buttons *)

Lemma visibleRange_bounds (pagination : PaginationData) :
  (1 <= page pagination <= totalPages pagination)%Z ->
  let '(startPage, endPage) := visibleRange pagination in
  (1 <= startPage /\ startPage <= page pagination /\ page pagination <= endPage
   /\ endPage <= totalPages pagination
   /\ endPage - startPage + 1 = Z.min (totalPages pagination) maxVisiblePages)%Z.
Proof.
  intros Hpage. unfold visibleRange, maxVisiblePages.
  change (5 / 2)%Z with 2%Z.
  destruct (Z.ltb_spec
              (Z.min (totalPages pagination) (Z.max 1 (page pagination - 2) + 5 - 1)
               - Z.max 1 (page pagination - 2)) (5 - 1)); lia.
Qed.

(** X16. The page buttons: for a current page between 1 and the number
    of pages, the buttons begin with a window of [min(totalPages, 5)]
    consecutive pages, within 1 and the number of pages, that contains
    the current page, marked as current; the last page always has a
    button; every button leads to a page between 1 and the number of
    pages; and there are at most 7 buttons. *)
Theorem renderPaginationButtons_window :
  forall pagination : PaginationData,
    (1 <= page pagination <= totalPages pagination)%Z ->
    exists buttons,
      renderPaginationButtons (Some pagination) = Some buttons
      /\ PageButton (page pagination) true ∈ buttons
      /\ (exists current, PageButton (totalPages pagination) current ∈ buttons)
      /\ (forall target current, PageButton target current ∈ buttons ->
            (1 <= target <= totalPages pagination)%Z
            /\ (current = true -> target = page pagination))
      /\ (exists startPage,
            let width := Z.min (totalPages pagination) maxVisiblePages in
            (1 <= startPage <= page pagination)%Z
            /\ (page pagination < startPage + width <= totalPages pagination + 1)%Z
            /\ take (Z.to_nat width) buttons
               = (fun i => PageButton i (i =? page pagination)%Z) <$> seqZ startPage width)
      /\ length buttons <= 7.
Proof.
  intros pagination Hpage. pose proof (visibleRange_bounds pagination Hpage) as Hrange.
  unfold renderPaginationButtons. destruct (visibleRange pagination) as [startPage endPage].
  destruct Hrange as (Hstart & Hle & Hge & Hend & Hwidth).
  unfold maxVisiblePages in *.
  eexists. split; [reflexivity|].
  assert (Hpages : forall target,
             (startPage <= target <= endPage)%Z ->
             PageButton target (target =? page pagination)%Z
             ∈ (fun i => PageButton i (i =? page pagination)%Z)
                 <$> seqZ startPage (endPage - startPage + 1)).
  { intros target Htarget. apply list_elem_of_fmap. exists target. split; [done|].
    apply elem_of_seqZ. lia. }
  split; [|split; [|split; [|split]]].
  - apply elem_of_app. left.
    replace true with (page pagination =? page pagination)%Z by apply Z.eqb_refl.
    apply Hpages. lia.
  - destruct (Z.ltb_spec endPage (totalPages pagination)).
    + exists false. apply elem_of_app. right. apply elem_of_app. right. apply list_elem_of_here.
    + eexists. apply elem_of_app. left. apply Hpages. lia.
  - intros target current [Hin|Hin]%elem_of_app.
    + apply list_elem_of_fmap in Hin as (i & [= -> ->] & Hi%elem_of_seqZ).
      split; [lia|]. by intros ?%Z.eqb_eq.
    + destruct (Z.ltb_spec endPage (totalPages pagination)); [|by apply elem_of_nil in Hin].
      apply elem_of_app in Hin as [Hin|Hin].
      * destruct (endPage <? totalPages pagination - 1)%Z.
        -- apply list_elem_of_singleton in Hin. discriminate.
        -- by apply elem_of_nil in Hin.
      * apply list_elem_of_singleton in Hin as [= -> ->]. split; [lia|done].
  - exists startPage. cbv zeta. split; [lia|]. split; [lia|].
    rewrite <- Hwidth. apply take_app_length'.
    by rewrite length_fmap, length_seqZ.
  - rewrite length_app, length_fmap, length_seqZ.
    destruct (endPage <? totalPages pagination)%Z; cbn [length]; [|lia].
    rewrite length_app. destruct (endPage <? totalPages pagination - 1)%Z; cbn [length]; lia.
Qed.

(** Page 9 of 10: the window is 6 to 10. *)
Lemma renderPaginationButtons_window_witness :
  renderPaginationButtons (Some {| page := 9; limit := 50; total := 500; totalPages := 10 |})
  = Some [ PageButton 6 false; PageButton 7 false; PageButton 8 false;
           PageButton 9 true; PageButton 10 false ]
  /\ exists buttons,
       renderPaginationButtons
         (Some {| page := 9; limit := 50; total := 500; totalPages := 10 |}) = Some buttons
       /\ PageButton 9 true ∈ buttons
       /\ exists startPage,
            (1 <= startPage <= 9)%Z /\ (9 < startPage + 5 <= 11)%Z
            /\ take 5 buttons
               = (fun i => PageButton i (i =? 9)%Z) <$> seqZ startPage 5.
Proof.
  split; [reflexivity|].
  destruct (renderPaginationButtons_window
              {| page := 9; limit := 50; total := 500; totalPages := 10 |})
    as (buttons & Hbuttons & Hcurrent & _ & _ & (startPage & Hwindow) & _).
  - cbn. lia.
  - exists buttons. split; [done|]. split; [done|]. by exists startPage.
Defined.

(** ** The store *)

Lemma find_filter_other {A} (wanted dropped : A -> bool) (l : list A) :
  (forall x, wanted x = true -> dropped x = false) ->
  find wanted (List.filter (fun x => negb (dropped x)) l) = find wanted l.
Proof.
  intros Hother. induction l as [|x l IH]; [done|]. cbn [List.filter find].
  destruct (wanted x) eqn:Hx.
  - rewrite (Hother x Hx). cbn [negb find]. by rewrite Hx.
  - destruct (dropped x); cbn [negb find]; [done|]. by rewrite Hx.
Qed.

Lemma find_filter_same {A} (wanted : A -> bool) (l : list A) :
  find wanted (List.filter (fun x => negb (wanted x)) l) = None.
Proof.
  induction l as [|x l IH]; [done|]. cbn [List.filter].
  destruct (wanted x) eqn:Hx; cbn [negb find]; [done|]. by rewrite Hx.
Qed.

Lemma filter_filter_other {A} (wanted dropped : A -> bool) (l : list A) :
  (forall x, wanted x = true -> dropped x = false) ->
  List.filter wanted (List.filter (fun x => negb (dropped x)) l) = List.filter wanted l.
Proof.
  intros Hother. induction l as [|x l IH]; [done|]. cbn [List.filter].
  destruct (wanted x) eqn:Hx.
  - rewrite (Hother x Hx). cbn [negb List.filter]. by rewrite Hx, IH.
  - destruct (dropped x); cbn [negb List.filter]; [done|]. by rewrite Hx.
Qed.

Lemma filter_filter_same {A} (wanted : A -> bool) (l : list A) :
  List.filter wanted (List.filter (fun x => negb (wanted x)) l) = [].
Proof.
  induction l as [|x l IH]; [done|]. cbn [List.filter].
  destruct (wanted x) eqn:Hx; cbn [negb List.filter]; [done|]. by rewrite Hx.
Qed.

Lemma elem_of_List_filter {A} (p : A -> bool) (l : list A) (x : A) :
  x ∈ List.filter p l <-> x ∈ l /\ p x = true.
Proof. rewrite !list_elem_of_In. apply filter_In. Qed.

Lemma NoDup_fmap_List_filter {A B} (f : A -> B) (p : A -> bool) (l : list A) :
  NoDup (f <$> l) -> NoDup (f <$> List.filter p l).
Proof.
  induction l as [|x l IH]; [done|]. cbn [fmap list_fmap List.filter].
  intros [Hx Hl]%NoDup_cons. destruct (p x); [|by apply IH].
  cbn [fmap list_fmap]. apply NoDup_cons. split; [|by apply IH].
  intros (y & Hy & Hin)%list_elem_of_fmap. apply Hx.
  apply list_elem_of_fmap. exists y. split; [done|].
  by apply elem_of_List_filter in Hin as [Hin _].
Qed.

Lemma Forall_List_filter {A} (P : A -> Prop) (p : A -> bool) (l : list A) :
  Forall P l -> Forall P (List.filter p l).
Proof.
  intros Hl. apply Forall_forall. intros x [Hx _]%elem_of_List_filter.
  by eapply Forall_forall in Hl.
Qed.

(** X17. Deleting a campaign: afterwards the campaign is not found and
    has no contact left; every other campaign is found as before with
    the same pages of contacts; and the invariants of the store (distinct
    ids below the counters, every contact in a campaign of the store)
    are kept. *)
Theorem deleteCampaign_cascades :
  forall (targetId : nat) (db : Store),
    getCampaignById targetId (deleteCampaign targetId db) = None
    /\ getContactsCountByCampaignId targetId (deleteCampaign targetId db) = 0
    /\ (forall other, other <> targetId ->
          getCampaignById other (deleteCampaign targetId db) = getCampaignById other db
          /\ forall limit offset,
               getContactsByCampaignId other limit offset (deleteCampaign targetId db)
               = getContactsByCampaignId other limit offset db)
    /\ (storeWellFormed db -> storeWellFormed (deleteCampaign targetId db)).
Proof.
  intros targetId db. split; [|split; [|split]].
  - apply (find_filter_same (fun campaign => (c_id campaign =? targetId)%nat)).
  - unfold getContactsCountByCampaignId, deleteCampaign. cbn [contacts].
    by rewrite (filter_filter_same (ownedBy targetId)).
  - intros other Hother. split.
    + apply (find_filter_other (fun campaign => (c_id campaign =? other)%nat)
               (fun campaign => (c_id campaign =? targetId)%nat)).
      intros campaign ->%Nat.eqb_eq. by apply Nat.eqb_neq.
    + intros limit offset. unfold getContactsByCampaignId, deleteCampaign. cbn [contacts].
      rewrite (filter_filter_other (ownedBy other) (ownedBy targetId)); [done|].
      unfold ownedBy. intros contact ->%Nat.eqb_eq. by apply Nat.eqb_neq.
  - intros (Hids & Hserial & Hcids & Hcserial & Hrefs).
    unfold storeWellFormed, deleteCampaign.
    cbn [campaigns contacts campaignSerial contactSerial].
    split; [by apply NoDup_fmap_List_filter|].
    split; [by apply Forall_List_filter|].
    split; [by apply NoDup_fmap_List_filter|].
    split; [by apply Forall_List_filter|].
    apply Forall_forall. intros contact [Hin Hkept]%elem_of_List_filter.
    eapply Forall_forall in Hrefs; [|exact Hin].
    apply list_elem_of_fmap in Hrefs as (campaign & Hid & Hcampaign).
    apply list_elem_of_fmap. exists campaign. split; [done|].
    apply elem_of_List_filter. split; [done|].
    unfold ownedBy in Hkept. by rewrite <- Hid.
Qed.

Lemma find_app_fresh {A} (wanted : A -> bool) (l : list A) (x : A) :
  find wanted l = None -> wanted x = true -> find wanted (l ++ [x]) = Some x.
Proof.
  induction l as [|y l IH]; cbn [app find]; intros Hnone Hx; [by rewrite Hx|].
  destruct (wanted y); [done|]. by apply IH.
Qed.

Lemma find_app_found {A} (wanted : A -> bool) (l k : list A) (x : A) :
  find wanted l = Some x -> find wanted (l ++ k) = Some x.
Proof.
  induction l as [|y l IH]; cbn [app find]; [done|].
  destruct (wanted y); [done|]. apply IH.
Qed.

Lemma getCampaignById_fresh (db : Store) (targetId : nat) :
  Forall (fun campaign => c_id campaign < campaignSerial db) (campaigns db) ->
  campaignSerial db <= targetId ->
  getCampaignById targetId db = None.
Proof.
  intros Hserial Hfresh. unfold getCampaignById.
  destruct (find _ (campaigns db)) as [campaign|] eqn:Hfind; [|done].
  apply find_some in Hfind as [Hin Hid]. apply list_elem_of_In in Hin.
  eapply Forall_forall in Hserial; [|exact Hin]. apply Nat.eqb_eq in Hid. lia.
Qed.

Lemma createCampaign_wellFormed (insertCampaign : InsertCampaign) (db : Store) :
  storeWellFormed db -> storeWellFormed (createCampaign insertCampaign db).2.
Proof.
  intros (Hids & Hserial & Hcids & Hcserial & Hrefs).
  unfold storeWellFormed, createCampaign.
  cbn [snd campaigns contacts campaignSerial contactSerial].
  rewrite fmap_app. cbn [fmap list_fmap c_id].
  split; [|split; [|split; [done|split; [done|]]]].
  - apply NoDup_app. split; [done|]. split; [|apply NoDup_singleton].
    intros id (existing & Hid & Hin)%list_elem_of_fmap Hnew%list_elem_of_singleton.
    eapply Forall_forall in Hserial; [|exact Hin]. cbn beta in Hserial. lia.
  - apply Forall_app. split.
    + eapply Forall_impl; [exact Hserial|]. intros existing Hlt. cbn beta in *. lia.
    + constructor; [cbn [c_id]; lia|done].
  - eapply Forall_impl; [exact Hrefs|]. intros contact Hin.
    apply elem_of_app. by left.
Qed.

(** X18. Creating a campaign in a store that keeps its invariants: the
    new row has status [active], the next id and the given name, file
    name, sizes and mapping; it is what [getCampaignById] returns for its
    id and, when no campaign had the name, what [getCampaignByName]
    returns for its name; the campaigns that were found by name before
    are still found; no contact changes and the invariants are kept. *)
Theorem createCampaign_then_lookup :
  forall (insertCampaign : InsertCampaign) (db : Store),
    storeWellFormed db ->
    let campaign := (createCampaign insertCampaign db).1 in
    let db' := (createCampaign insertCampaign db).2 in
    c_status campaign = "active"
    /\ c_name campaign = ic_name insertCampaign
    /\ getCampaignById (c_id campaign) db' = Some campaign
    /\ (getCampaignByName (ic_name insertCampaign) db = None ->
        getCampaignByName (ic_name insertCampaign) db' = Some campaign)
    /\ (forall name found, getCampaignByName name db = Some found ->
                           getCampaignByName name db' = Some found)
    /\ contacts db' = contacts db
    /\ storeWellFormed db'.
Proof.
  intros insertCampaign db Hwf campaign db'.
  pose proof Hwf as (Hids & Hserial & Hcids & Hcserial & Hrefs).
  split; [done|]. split; [done|]. split; [|split; [|split; [|split; [done|]]]].
  - apply find_app_fresh; [|apply Nat.eqb_refl].
    by apply (getCampaignById_fresh db).
  - intros Hnone. apply find_app_fresh; [done|apply String.eqb_refl].
  - intros name found Hfound. by apply find_app_found.
  - by apply createCampaign_wellFormed.
Qed.

(** A campaign created in the store of [Q1 Leads] under a new name. *)
Lemma createCampaign_then_lookup_witness :
  getCampaignByName "Q2 Leads"
    (createCampaign
       {| ic_name := "Q2 Leads"; ic_fileName := "q2.csv"; ic_recordCount := 0;
          ic_fileSize := 5; ic_fieldMapping := ∅ |} q1Store).2
  = Some (createCampaign
            {| ic_name := "Q2 Leads"; ic_fileName := "q2.csv"; ic_recordCount := 0;
               ic_fileSize := 5; ic_fieldMapping := ∅ |} q1Store).1.
Proof.
  assert (Hwf : storeWellFormed q1Store).
  { unfold storeWellFormed, q1Store. cbn.
    repeat split; repeat constructor; try lia.
    rewrite elem_of_nil. tauto. }
  destruct (createCampaign_then_lookup
              {| ic_name := "Q2 Leads"; ic_fileName := "q2.csv"; ic_recordCount := 0;
                 ic_fileSize := 5; ic_fieldMapping := ∅ |} q1Store Hwf)
    as (_ & _ & _ & Hname & _).
  exact (Hname eq_refl).
Defined.

(** X19. Pages of contacts: a page holds only contacts of the campaign,
    its length is the smaller of the limit and the number of contacts
    left after the offset, and two consecutive pages make up the page
    with the sum of their limits. *)
Theorem getContactsByCampaignId_pages :
  forall (targetId limit offset : nat) (db : Store),
    Forall (fun contact => campaignId (contactRow contact) = targetId)
           (getContactsByCampaignId targetId limit offset db)
    /\ length (getContactsByCampaignId targetId limit offset db)
       = Nat.min limit (getContactsCountByCampaignId targetId db - offset)
    /\ forall limit',
         (getContactsByCampaignId targetId limit offset db
          ++ getContactsByCampaignId targetId limit' (offset + limit) db)%list
         = getContactsByCampaignId targetId (limit + limit') offset db.
Proof.
  intros targetId limit offset db. unfold getContactsByCampaignId, getContactsCountByCampaignId.
  split; [|split].
  - apply Forall_forall. intros contact Hin.
    apply subseteq_take, subseteq_drop in Hin.
    apply elem_of_List_filter in Hin as [_ Howned]. by apply Nat.eqb_eq in Howned.
  - by rewrite length_take, length_drop.
  - intros limit'. rewrite <- drop_drop. apply take_take_drop.
Qed.

(** ** The contact list route *)

Lemma processContact_lookup (contact : Contact) (field : string) :
  pc_fields (processContact contact) !! field
  = if decide (field ∈ standardFields)
    then Some (fieldOrEmpty (contactFields (contactRow contact)) field)
    else None.
Proof.
  cbn [processContact pc_fields]. destruct (decide (field ∈ standardFields)) as [Hin|Hout].
  - apply elem_of_list_to_map_1.
    + rewrite <- list_fmap_compose. rewrite (list_fmap_ext _ id standardFields) by done.
      rewrite list_fmap_id. apply NoDup_ListNoDup.
      repeat constructor; cbn; intuition discriminate.
    + apply list_elem_of_fmap. by exists field.
  - apply not_elem_of_list_to_map_1. rewrite <- list_fmap_compose.
    rewrite (list_fmap_ext _ id standardFields) by done. by rewrite list_fmap_id.
Qed.

(** X20. The search of the contact list does not search: for every
    non-empty query the route answers with the first 100 contacts of the
    full list, whatever the query is; an empty query gives the full
    list. *)
Theorem contactsRoute_search_ignores_query :
  forall (targetId : nat) (query : string) (db : Store),
    ans_contacts (contactsRoute targetId (Some query) db)
    = if truthy query
      then take 100 (ans_contacts (contactsRoute targetId None db))
      else ans_contacts (contactsRoute targetId None db).
Proof.
  intros targetId query db. unfold contactsRoute. cbn [ans_contacts].
  destruct (truthy query); [|done].
  unfold searchContactsInCampaign, getContactsByCampaignId.
  rewrite drop_0, <- fmap_take, take_take.
  replace (100 `min` fullListLimit) with 100 by (unfold fullListLimit; lia). done.
Qed.

(** X21. Shape of the contact list: every contact of the answer belongs
    to the campaign asked for and carries all 11 standard fields and no
    other, each as a string (empty when the stored field is absent);
    the total of the pagination is the number of contacts returned,
    which is at most 10000. *)
Theorem contactsRoute_answer_shape :
  forall (targetId : nat) (search : option string) (db : Store),
    Forall (fun contact =>
              pc_campaignId contact = targetId
              /\ forall k, is_Some (pc_fields contact !! k) <-> k ∈ standardFields)
           (ans_contacts (contactsRoute targetId search db))
    /\ total (ans_pagination (contactsRoute targetId search db))
       = Z.of_nat (length (ans_contacts (contactsRoute targetId search db)))
    /\ length (ans_contacts (contactsRoute targetId search db)) <= fullListLimit.
Proof.
  intros targetId search db.
  assert (Hfound : exists n, n <= fullListLimit /\
             ans_contacts (contactsRoute targetId search db)
             = processContact <$> take n (List.filter (ownedBy targetId) (contacts db))).
  { unfold contactsRoute. cbn [ans_contacts].
    unfold searchContactsInCampaign, getContactsByCampaignId. rewrite drop_0.
    destruct search as [query|]; [destruct (truthy query)|];
      eexists; (split; [|reflexivity]); unfold fullListLimit; lia. }
  destruct Hfound as (n & Hn & Hfound). split; [|split; [done|]].
  - rewrite Hfound. apply Forall_fmap, Forall_forall. intros contact Hin.
    apply subseteq_take, elem_of_List_filter in Hin as [_ Howned].
    split; [by apply Nat.eqb_eq in Howned|].
    intros k. unfold compose. rewrite processContact_lookup.
    destruct (decide (k ∈ standardFields)); [|split; [by intros [? [=]]|done]].
    split; [done|]. intros _. by eexists.
  - rewrite Hfound, length_fmap, length_take. lia.
Qed.

(** ** The upload route *)

Lemma collect_Returned {A} (results : list (outcome A)) (values : list A) :
  collect results = Returned values <-> results = Returned <$> values.
Proof.
  revert values. induction results as [|[value|error] results IH]; intros values.
  - cbn. split; [by intros [= <-]|]. by destruct values.
  - cbn [collect]. destruct (collect results) as [values'|error] eqn:Hrest.
    + split.
      * intros [= <-]. rewrite fmap_cons. f_equal. by apply IH.
      * destruct values as [|v values]; [done|]. rewrite fmap_cons. intros [= -> Hresults].
        apply IH in Hresults. by injection Hresults as ->.
    + split; [done|]. destruct values as [|v values]; [done|].
      rewrite fmap_cons. intros [= -> Hresults]. by apply IH in Hresults.
  - cbn. split; [done|]. by destruct values.
Qed.

Lemma collect_Threw {A} (results : list (outcome A)) (error : thrown) :
  collect results = Threw error -> Threw error ∈ results.
Proof.
  induction results as [|[value|error'] results IH]; [done| |].
  - cbn [collect]. destruct (collect results); [done|]. intros [= ->].
    apply list_elem_of_further. by apply IH.
  - cbn. intros [= ->]. apply list_elem_of_here.
Qed.

(** The records that [rows.map] returns: one per row, each returned by
    the callback on its row. *)
Lemma buildContacts_Returned (node : NodeRuntime) (campaign : Campaign)
    (fieldMapping : gmap string string) (rows : list (gmap string string))
    (contactsData : list InsertContact) :
  buildContacts campaign fieldMapping rows = Returned contactsData ->
  length contactsData = length rows
  /\ forall k row, rows !! k = Some row ->
       exists contact, contactsData !! k = Some contact
                       /\ buildContact campaign fieldMapping k row = Returned contact.
Proof.
  unfold buildContacts. intros Hmap%collect_Returned. split.
  - apply (f_equal length) in Hmap. by rewrite length_imap, length_fmap in Hmap.
  - intros k row Hrow.
    assert (Hk : imap (buildContact campaign fieldMapping) rows !! k
                 = Some (buildContact campaign fieldMapping k row)).
    { rewrite list_lookup_imap, Hrow. done. }
    rewrite Hmap, list_lookup_fmap in Hk.
    destruct (contactsData !! k) as [contact|]; [|done].
    injection Hk as Hk. by exists contact.
Qed.

(** When [rows.map] throws, a row made the callback throw. *)
Lemma buildContacts_Threw (node : NodeRuntime) (campaign : Campaign)
    (fieldMapping : gmap string string) (rows : list (gmap string string))
    (error : thrown) :
  buildContacts campaign fieldMapping rows = Threw error ->
  exists k row, rows !! k = Some row
                /\ buildContact campaign fieldMapping k row = Threw error.
Proof.
  unfold buildContacts. intros Hmap%collect_Threw.
  apply elem_of_lookup_imap in Hmap as (k & row & Heq & Hrow). by exists k, row.
Qed.

Lemma saveInBatches_store contactsData i db :
  campaigns (saveInBatches contactsData i db) = campaigns db
  /\ campaignSerial (saveInBatches contactsData i db) = campaignSerial db
  /\ contactSerial (saveInBatches contactsData i db)
     = contactSerial db + length (drop i contactsData)
  /\ contacts (saveInBatches contactsData i db)
     = (contacts db
        ++ imap (fun k row => {| contactId := contactSerial db + k; contactRow := row |})
             (drop i contactsData))%list
  /\ exists calls : list (list InsertContact),
       insertCalls (saveInBatches contactsData i db) = (insertCalls db ++ calls)%list
       /\ concat calls = drop i contactsData
       /\ Forall (fun batch => 0 < length batch <= batchSize) calls.
Proof.
  funelim (saveInBatches contactsData i db).
  - destruct H as (Hcampaigns & Hserial & Hcserial & Hcontacts & calls & Hcalls & Hconcat & Hsizes).
    rewrite Hcampaigns, Hserial, Hcserial, Hcontacts, Hcalls.
    unfold slice in *. replace (i + batchSize - i) with batchSize in * by lia.
    cbn [createContacts snd campaigns campaignSerial contactSerial contacts insertCalls].
    assert (Hdrop : drop i contactsData
                    = (take batchSize (drop i contactsData)
                       ++ drop (i + batchSize) contactsData)%list).
    { by rewrite <- (drop_drop contactsData batchSize i), take_drop. }
    assert (Hbatch : 0 < length (take batchSize (drop i contactsData)) <= batchSize).
    { rewrite length_take, length_drop. unfold batchSize. lia. }
    revert Hdrop Hbatch. generalize (take batchSize (drop i contactsData)) as batch.
    intros batch Hdrop Hbatch. rewrite Hdrop.
    split; [done|]. split; [done|]. split; [|split].
    + rewrite length_app. lia.
    + rewrite <- app_assoc. f_equal. rewrite imap_app. f_equal.
      apply imap_ext. intros k row _. cbn. f_equal. lia.
    + exists (batch :: calls).
      split; [by rewrite <- app_assoc|]. split; [cbn [concat]; by rewrite Hconcat|].
      by constructor.
  - rewrite drop_ge by lia. cbn [length imap]. rewrite Nat.add_0_r, app_nil_r.
    repeat split; try done. exists []. by rewrite app_nil_r.
Qed.

Lemma saveInBatches_step contactsData i db :
  saveInBatches contactsData i db
  = if decide (i < length contactsData)
    then saveInBatches contactsData (i + batchSize)
           (createContacts (slice i (i + batchSize) contactsData) db).2
    else db.
Proof.
  simp saveInBatches. destruct (decide (i < length contactsData)); by simp saveInBatches.
Qed.

(** The batch loop of the route: the contacts saved are a prefix of the
    list, the whole of it when the loop ran to its end; the calls made
    carry a prefix of the list, in batches of 1 to 100; and a loop that
    ran to its end did what [saveInBatches] does. *)
Lemma saveContacts_store (node : NodeRuntime) contactsData i db :
  campaigns (saveContacts contactsData i db).2 = campaigns db
  /\ campaignSerial (saveContacts contactsData i db).2 = campaignSerial db
  /\ (exists saved rest : list InsertContact,
        drop i contactsData = (saved ++ rest)%list
        /\ contacts (saveContacts contactsData i db).2
           = (contacts db
              ++ imap (fun k row => {| contactId := contactSerial db + k; contactRow := row |})
                   saved)%list
        /\ contactSerial (saveContacts contactsData i db).2 = contactSerial db + length saved
        /\ if (saveContacts contactsData i db).1 then rest = [] else rest <> [])
  /\ (exists (calls : list (list InsertContact)) (rest : list InsertContact),
        insertCalls (saveContacts contactsData i db).2 = (insertCalls db ++ calls)%list
        /\ drop i contactsData = (concat calls ++ rest)%list
        /\ Forall (fun batch => 0 < length batch <= batchSize) calls)
  /\ ((saveContacts contactsData i db).1 = true ->
      (saveContacts contactsData i db).2 = saveInBatches contactsData i db).
Proof.
  funelim (saveContacts contactsData i db).
  - clear Heqcall Heq. rewrite (saveInBatches_step contactsData i db), decide_True by done.
    unfold slice in *. replace (i + batchSize - i) with batchSize in * by lia.
    assert (Hdrop : drop i contactsData
                    = (take batchSize (drop i contactsData)
                       ++ drop (i + batchSize) contactsData)%list).
    { by rewrite <- (drop_drop contactsData batchSize i), take_drop. }
    assert (Hbatch : 0 < length (take batchSize (drop i contactsData)) <= batchSize).
    { rewrite length_take, length_drop. unfold batchSize. lia. }
    revert H Hdrop Hbatch. generalize (take batchSize (drop i contactsData)) as batch.
    intros batch IH Hdrop Hbatch. rewrite Hdrop.
    destruct (insertThrows db batch).
    + cbn [fst snd createContactsThrows campaigns campaignSerial contacts contactSerial
             insertCalls].
      split; [done|]. split; [done|]. split; [|split; [|done]].
      * exists [], (batch ++ drop (i + batchSize) contactsData)%list.
        cbn [imap length]. rewrite app_nil_r, Nat.add_0_r.
        repeat split; try done. destruct batch; [cbn in Hbatch; lia|done].
      * exists [batch], (drop (i + batchSize) contactsData).
        cbn [concat]. rewrite app_nil_r. split; [done|]. split; [done|].
        constructor; [done|constructor].
    + destruct IH as (Hcampaigns & Hserial & (saved & rest & Hsaved & Hcontacts & Hcserial & Hrest)
                      & (calls & rest' & Hcalls & Hconcat & Hsizes) & Hsame).
      rewrite Hcampaigns, Hserial, Hcontacts, Hcserial, Hcalls.
      cbn [createContacts snd campaigns campaignSerial contactSerial contacts insertCalls].
      split; [done|]. split; [done|]. split; [|split; [|done]].
      * exists (batch ++ saved)%list, rest. rewrite Hsaved, length_app.
        split; [by rewrite <- app_assoc|]. split; [|split; [lia|done]].
        rewrite <- app_assoc. f_equal. rewrite imap_app. f_equal.
        apply imap_ext. intros k row _. cbn. f_equal. lia.
      * exists (batch :: calls), rest'. rewrite Hconcat. cbn [concat].
        split; [by rewrite <- app_assoc|]. split; [by rewrite <- app_assoc|].
        by constructor.
  - clear Heq. rewrite (saveInBatches_step contactsData i db), decide_False by done.
    rewrite drop_ge by lia. cbn [fst snd].
    split; [done|]. split; [done|]. split; [|split; [|done]].
    + exists [], []. cbn [imap length app]. by rewrite app_nil_r, Nat.add_0_r.
    + exists [], []. rewrite app_nil_r. split; [done|]. split; [done|]. constructor.
Qed.

(** What the callback returns, when it returns. *)
Lemma buildContact_Returned (node : NodeRuntime) (campaign : Campaign) (index : nat)
    (fieldMapping row : gmap string string) (contact : InsertContact) :
  buildContact campaign fieldMapping index row = Returned contact ->
  campaignId contact = c_id campaign
  /\ parseContactFields (transformRow fieldMapping row) = Some (contactFields contact).
Proof.
  unfold buildContact. destruct (cipherThrows _); [done|].
  unfold insertContactSchema_parse.
  destruct (transformRow fieldMapping row !! "campaignId"); [done|].
  destruct (parseContactFields (transformRow fieldMapping row)) as [fields|].
  - by destruct (transformRow fieldMapping row !! "encryptedData") as [[?|?]|];
      cbn; try done; intros [= <-].
  - by destruct (transformRow fieldMapping row !! "encryptedData") as [[?|?]|].
Qed.

Lemma validated_keys (raw : option jsonValue) (fieldMapping : gmap string string) (k : string) :
  raw ≫= fieldMappingSchema_parse = Some fieldMapping ->
  is_Some (fieldMapping !! k) -> k ∈ standardFields.
Proof.
  destruct raw as [[| | | | |members]|]; try done.
  change (parseShape members = Some fieldMapping -> is_Some (fieldMapping !! k) ->
          k ∈ standardFields).
  unfold parseShape. intros Hparse [s Hs]. by apply (parse_fold_Some _ _ _ Hparse) in Hs as [Hk _].
Qed.

(** The fields of a returned contact, for a mapping with standard keys
    only: no field was set to a member of [Object.prototype], and every
    standard field reads as the text that the transform gave it. *)
Lemma buildContact_Returned_text (node : NodeRuntime) (campaign : Campaign) (index : nat)
    (fieldMapping row : gmap string string) (contact : InsertContact) :
  (forall field, is_Some (fieldMapping !! field) -> field ∈ standardFields) ->
  buildContact campaign fieldMapping index row = Returned contact ->
  (forall field name, transformRow fieldMapping row !! field <> Some (PrototypeMember name))
  /\ forall field, field ∈ standardFields ->
       fieldOrEmpty (contactFields contact) field
       = fieldText (transformRow fieldMapping row) field.
Proof.
  intros Hkeys [_ Hfields]%buildContact_Returned.
  assert (Hnone : forall field name,
             transformRow fieldMapping row !! field <> Some (PrototypeMember name)).
  { intros field name Hfield.
    assert (parseContactFields (transformRow fieldMapping row) = None); [|congruence].
    apply parseContactFields_None. exists field, name. split; [|done].
    by eapply transformRow_keys. }
  split; [exact Hnone|]. intros field Hfield. unfold fieldOrEmpty, fieldText.
  pose proof (parseContactFields_Some _ _ Hfields field) as Hvalue.
  destruct (transformRow fieldMapping row !! field) as [[value|name]|] eqn:Hcell.
  - by rewrite (proj2 (Hvalue value) (conj Hfield eq_refl)).
  - by destruct (Hnone field name).
  - destruct (contactFields contact !! field) as [value|] eqn:Hstored; [|done].
    by destruct (proj1 (Hvalue value) eq_refl) as [_ [=]].
Qed.

(** The outcomes of an upload: a failure before the campaign is created,
    which leaves the store as it was, or the creation of the campaign
    followed by [rows.map] and the batch loop. *)
Lemma uploadCampaign_cases (node : NodeRuntime) (req : UploadRequest) (db : Store) :
  ((uploadCampaign req db).2 = db
   /\ forall campaign count, (uploadCampaign req db).1 <> Uploaded campaign count)
  \/ exists f fieldMapping parsed,
       file req = Some f
       /\ campaignName req <> ""
       /\ fieldMappingRaw req ≫= fieldMappingSchema_parse = Some fieldMapping
       /\ getCampaignByName (campaignName req) db = None
       /\ parseCSV (buffer f) = Resolved parsed
       /\ uploadCampaign req db
          = let created :=
              createCampaign
                {| ic_name := campaignName req;
                   ic_fileName := originalname f;
                   ic_recordCount := length (rows parsed);
                   ic_fileSize := size f;
                   ic_fieldMapping := fieldMapping |} db in
            match buildContacts created.1 fieldMapping (rows parsed) with
            | Threw ZodError => (Status400 "Invalid data format", created.2)
            | Threw OtherError => (Status500 "Failed to upload campaign", created.2)
            | Returned contactsData =>
                match saveContacts contactsData 0 created.2 with
                | (true, db2) => (Uploaded created.1 (length (rows parsed)), db2)
                | (false, db2) => (Status500 "Failed to upload campaign", db2)
                end
            end.
Proof.
  unfold uploadCampaign.
  destruct (file req) as [f|]; [|by left].
  destruct (truthy (campaignName req)) eqn:Hname; cbn [negb]; [|by left].
  destruct (fieldMappingRaw req) as [raw|] eqn:Hraw; [|by left].
  destruct (fieldMappingSchema_parse raw) as [fieldMapping|] eqn:Hmapping; [|by left].
  destruct (getCampaignByName (campaignName req) db) eqn:Hfresh; [by left|].
  destruct (parseCSV (buffer f)) as [parsed| |] eqn:Hparsed; [|by left|by left].
  right. exists f, fieldMapping, parsed. apply truthy_spec in Hname.
  repeat split; try done.
Qed.

(** A request for a name that the store has is answered with the
    conflict, when it carries a file and a mapping that passes
    validation. *)
Lemma uploadCampaign_conflict (node : NodeRuntime) (req : UploadRequest) (db : Store)
    (f : UploadedFile) (fieldMapping : gmap string string) (existing : Campaign) :
  file req = Some f ->
  campaignName req <> "" ->
  fieldMappingRaw req ≫= fieldMappingSchema_parse = Some fieldMapping ->
  existing ∈ campaigns db ->
  c_name existing = campaignName req ->
  uploadCampaign req db = (Status400 "Campaign name already exists", db).
Proof.
  intros Hfile Hname%truthy_spec Hmapping Hin Hexisting.
  destruct (getCampaignByName_existing _ _ _ Hin Hexisting) as [found Hfound].
  unfold uploadCampaign. rewrite Hfile, Hname. cbn [negb].
  destruct (fieldMappingRaw req) as [raw|]; [|done]. cbn in Hmapping.
  by rewrite Hmapping, Hfound.
Qed.

(** X22. An upload that is not answered with success is not rolled
    back.  Either it failed before the campaign was created, and the
    store is as it was; or the campaign row was inserted and stays: the
    store has one more campaign, named as requested, with fewer contacts
    than its record count (none when the answer is the validation
    error), and the same request sent again is answered with the
    conflict. *)
Theorem uploadCampaign_failure_not_rolled_back :
  forall (node : NodeRuntime) (req : UploadRequest) (db : Store),
    (forall campaign count, (uploadCampaign req db).1 <> Uploaded campaign count) ->
    (uploadCampaign req db).2 = db
    \/ exists (campaign : Campaign) (stored : list InsertContact),
         campaigns (uploadCampaign req db).2 = (campaigns db ++ [campaign])%list
         /\ c_name campaign = campaignName req
         /\ c_id campaign = campaignSerial db
         /\ contactRow <$> contacts (uploadCampaign req db).2
            = ((contactRow <$> contacts db) ++ stored)%list
         /\ Forall (fun contact => campaignId contact = c_id campaign) stored
         /\ length stored < c_recordCount campaign
         /\ ((uploadCampaign req db).1 = Status400 "Invalid data format" /\ stored = []
             \/ (uploadCampaign req db).1 = Status500 "Failed to upload campaign")
         /\ uploadCampaign req (uploadCampaign req db).2
            = (Status400 "Campaign name already exists", (uploadCampaign req db).2).
Proof.
  intros node req db Hfailure.
  destruct (uploadCampaign_cases node req db)
    as [[Hsame _]|(f & fieldMapping & parsed & Hfile & Hname & Hmapping & _ & _ & Hrun)];
    [by left|].
  right. cbv zeta in Hrun.
  set (created := createCampaign _ db) in Hrun.
  assert (Hretry : forall answer db',
             uploadCampaign req db = (answer, db') ->
             campaigns db' = (campaigns db ++ [created.1])%list ->
             uploadCampaign req (uploadCampaign req db).2
             = (Status400 "Campaign name already exists", (uploadCampaign req db).2)).
  { intros answer db' -> Hcampaigns. cbn [snd].
    apply (uploadCampaign_conflict node req db' f fieldMapping created.1); try done.
    rewrite Hcampaigns. apply elem_of_app. right. apply list_elem_of_here. }
  exists created.1.
  destruct (buildContacts created.1 fieldMapping (rows parsed))
    as [contactsData|error] eqn:Hbuilt.
  - destruct (buildContacts_Returned _ _ _ _ _ Hbuilt) as [Hlength Hrows].
    destruct (saveContacts_store node contactsData 0 created.2)
      as (Hcampaigns & _ & (saved & rest & Hsaved & Hcontacts & _ & Hrest) & _).
    destruct (saveContacts contactsData 0 created.2) as [[|] db2] eqn:Hloop.
    { exfalso. rewrite Hrun in Hfailure. by eapply Hfailure. }
    cbn [fst snd] in *. exists saved.
    rewrite (Hretry _ _ Hrun Hcampaigns), Hrun. cbn [fst snd].
    rewrite Hcampaigns, Hcontacts. rewrite drop_0 in Hsaved.
    split; [done|]. split; [done|]. split; [done|]. split; [|split; [|split; [|split]]].
    + rewrite fmap_app, fmap_imap. f_equal.
      rewrite (imap_ext _ (const id)) by done. by rewrite imap_const, list_fmap_id.
    + apply Forall_forall. intros contact Hcontact.
      assert (Hin : contact ∈ contactsData).
      { rewrite Hsaved. apply elem_of_app. by left. }
      apply list_elem_of_lookup in Hin as [k Hk].
      assert (Hlt : k < length (rows parsed)).
      { rewrite <- Hlength. by eapply lookup_lt_Some. }
      apply lookup_lt_is_Some in Hlt as [row Hrow].
      destruct (Hrows k row Hrow) as (contact' & Hk' & Hcontact').
      rewrite Hk in Hk'. injection Hk' as <-.
      by apply buildContact_Returned in Hcontact' as [-> _].
    + change (c_recordCount created.1) with (length (rows parsed)).
      rewrite <- Hlength, Hsaved, length_app. destruct rest; [done|]. cbn [length]. lia.
    + by right.
    + done.
  - apply buildContacts_Threw in Hbuilt as Hrow. destruct Hrow as (k & row & Hk%lookup_lt_Some & _).
    exists []. rewrite app_nil_r.
    assert (Hstore : (uploadCampaign req db).2 = created.2).
    { rewrite Hrun. by destruct error. }
    rewrite (Hretry _ _ (surjective_pairing _)) by by rewrite Hstore.
    rewrite Hstore. split; [done|]. split; [done|]. split; [done|]. split; [done|].
    split; [constructor|].
    split; [change (c_recordCount created.1) with (length (rows parsed)); cbn; lia|].
    split; [|done].
    rewrite Hrun. destruct error; [by left|by right].
Qed.

(** The upload of [Q3 Leads]: the answer is the validation error, and the
    campaign stays in the store without any contact. *)
Lemma uploadCampaign_failure_not_rolled_back_witness :
  uploadCampaign (node := exampleRuntime) q3Request q1Store
  = (Status400 "Invalid data format",
     {| campaigns := (campaigns q1Store ++ [q3Campaign])%list;
        contacts := []; campaignSerial := 3; contactSerial := 1;
        now := 1; insertCalls := [] |})
  /\ ((uploadCampaign (node := exampleRuntime) q3Request q1Store).2 = q1Store
      \/ exists (campaign : Campaign) (stored : list InsertContact),
           campaigns (uploadCampaign (node := exampleRuntime) q3Request q1Store).2
           = (campaigns q1Store ++ [campaign])%list
           /\ c_name campaign = "Q3 Leads"
           /\ length stored < c_recordCount campaign).
Proof.
  assert (Hrun : uploadCampaign (node := exampleRuntime) q3Request q1Store
                 = (Status400 "Invalid data format",
                    {| campaigns := (campaigns q1Store ++ [q3Campaign])%list;
                       contacts := []; campaignSerial := 3; contactSerial := 1;
                       now := 1; insertCalls := [] |}))
    by (vm_compute; reflexivity).
  split; [exact Hrun|].
  destruct (uploadCampaign_failure_not_rolled_back exampleRuntime q3Request q1Store)
    as [Hsame|(campaign & stored & Hcampaigns & Hname & _ & _ & _ & Hcount & _)].
  - rewrite Hrun. intros campaign count. discriminate.
  - left. exact Hsame.
  - right. exists campaign, stored.
    split; [exact Hcampaigns|]. split; [exact Hname|exact Hcount].
Defined.

Lemma find_None_Forall {A} (wanted : A -> bool) (l : list A) :
  find wanted l = None -> Forall (fun x => wanted x = false) l.
Proof.
  induction l as [|x l IH]; [done|]. cbn [find].
  destruct (wanted x) eqn:Hx; [done|]. intros Hl. by constructor; [|apply IH].
Qed.

Lemma filter_none {A} (p : A -> bool) (l : list A) :
  Forall (fun x => p x = false) l -> List.filter p l = [].
Proof.
  induction 1 as [|x l Hx Hl IH]; [done|]. cbn [List.filter]. by rewrite Hx.
Qed.

Lemma filter_every {A} (p : A -> bool) (l : list A) :
  Forall (fun x => p x = true) l -> List.filter p l = l.
Proof.
  induction 1 as [|x l Hx Hl IH]; [done|]. cbn [List.filter]. by rewrite Hx, IH.
Qed.

Lemma Forall_imap {A B} (P : B -> Prop) (f : nat -> A -> B) (l : list A) :
  (forall k x, l !! k = Some x -> P (f k x)) -> Forall P (imap f l).
Proof.
  intros HP. apply Forall_forall. intros y (k & x & -> & Hk)%elem_of_lookup_imap.
  by eapply HP.
Qed.

Lemma processed_fields_of_row (contact : Contact) :
  pc_fields (processContact contact)
  = list_to_map
      ((fun field => (field, fieldOrEmpty (contactFields (contactRow contact)) field))
         <$> standardFields).
Proof. reflexivity. Qed.

(** The contacts that [rows.map] returns, one by one: the owner is the
    campaign, and for a mapping with standard keys only no field of any
    row was set to a member of [Object.prototype]. *)
Lemma buildContacts_contacts (node : NodeRuntime) (campaign : Campaign)
    (fieldMapping : gmap string string) (rows : list (gmap string string))
    (contactsData : list InsertContact) :
  (forall field, is_Some (fieldMapping !! field) -> field ∈ standardFields) ->
  buildContacts campaign fieldMapping rows = Returned contactsData ->
  Forall (fun contact => campaignId contact = c_id campaign) contactsData
  /\ Forall (fun row => forall field name,
                          transformRow fieldMapping row !! field
                          <> Some (PrototypeMember name)) rows
  /\ (fun contact =>
        list_to_map
          ((fun field => (field, fieldOrEmpty (contactFields contact) field))
             <$> standardFields) : gmap string string)
       <$> contactsData
     = (fun row =>
          list_to_map
            ((fun field => (field, fieldText (transformRow fieldMapping row) field))
               <$> standardFields))
         <$> rows.
Proof.
  intros Hkeys Hbuilt. destruct (buildContacts_Returned _ _ _ _ _ Hbuilt) as [Hlength Hrows].
  split; [|split].
  - apply Forall_forall. intros contact [k Hk]%list_elem_of_lookup.
    assert (Hlt : k < length rows) by (rewrite <- Hlength; by eapply lookup_lt_Some).
    apply lookup_lt_is_Some in Hlt as [row Hrow].
    destruct (Hrows k row Hrow) as (contact' & Hk' & Hcontact').
    rewrite Hk in Hk'. injection Hk' as <-.
    by apply buildContact_Returned in Hcontact' as [-> _].
  - apply Forall_forall. intros row [k Hrow]%list_elem_of_lookup.
    destruct (Hrows k row Hrow) as (contact & _ & Hcontact).
    by apply buildContact_Returned_text in Hcontact as [Hnone _].
  - set (stored := fun contact : InsertContact => _).
    set (given := fun row : gmap string string => _).
    apply list_eq. intros k. rewrite !list_lookup_fmap.
    destruct (rows !! k) as [row|] eqn:Hrow.
    + destruct (Hrows k row Hrow) as (contact & -> & Hcontact).
      cbn [fmap option_fmap option_map]. f_equal. unfold stored, given. f_equal.
      apply buildContact_Returned_text in Hcontact as [_ Htext]; [|done].
      apply Forall_fmap_ext_1, Forall_forall. intros field Hfield. by rewrite Htext.
    + apply lookup_ge_None in Hrow. rewrite <- Hlength in Hrow.
      apply lookup_ge_None in Hrow. by rewrite Hrow.
Qed.

(** X23. Upload, then list: after an upload answered with success into a
    store that keeps its invariants, no field of any row was set to a
    member of [Object.prototype], and the contact list of the new
    campaign has one contact per parsed row, in the order of the rows
    (up to 10000 rows), each with the text that the row transform gives
    for every field it sets and the empty string for the others; the
    number of contacts counted for the campaign is its record count. *)
Theorem uploadCampaign_then_list :
  forall (node : NodeRuntime) (req : UploadRequest) (db : Store)
         (f : UploadedFile) (fieldMapping : gmap string string) (parsed : ParsedCsv)
         (campaign : Campaign) (count : nat),
    storeWellFormed db ->
    file req = Some f ->
    fieldMappingRaw req ≫= fieldMappingSchema_parse = Some fieldMapping ->
    parseCSV (buffer f) = Resolved parsed ->
    (uploadCampaign req db).1 = Uploaded campaign count ->
    length (rows parsed) <= fullListLimit ->
    count = length (rows parsed)
    /\ getContactsCountByCampaignId (c_id campaign) (uploadCampaign req db).2
       = c_recordCount campaign
    /\ Forall (fun row => forall field name,
                            transformRow fieldMapping row !! field
                            <> Some (PrototypeMember name)) (rows parsed)
    /\ pc_fields <$> ans_contacts (contactsRoute (c_id campaign) None (uploadCampaign req db).2)
       = (fun row =>
            list_to_map
              ((fun field => (field, fieldText (transformRow fieldMapping row) field))
                 <$> standardFields))
           <$> rows parsed.
Proof.
  intros node req db f fieldMapping parsed campaign count
    (Hids & Hserial & Hcids & Hcserial & Hrefs) Hfile Hmapping Hparsed Hanswer Hlimit.
  destruct (uploadCampaign_cases node req db)
    as [[_ Hfailure]|(f' & fieldMapping' & parsed' & Hfile' & _ & Hmapping' & _ & Hparsed' & Hrun)].
  { by destruct (Hfailure campaign count). }
  rewrite Hfile in Hfile'. injection Hfile' as <-.
  rewrite Hmapping in Hmapping'. injection Hmapping' as <-.
  rewrite Hparsed in Hparsed'. injection Hparsed' as <-.
  cbv zeta in Hrun. set (created := createCampaign _ db) in Hrun.
  rewrite Hrun in Hanswer |- *.
  destruct (buildContacts created.1 fieldMapping (rows parsed))
    as [contactsData|[|]] eqn:Hbuilt; [|done..].
  destruct (saveContacts_store node contactsData 0 created.2)
    as (_ & _ & (saved & rest & Hsaved & Hcontacts & _ & Hrest) & _).
  destruct (saveContacts contactsData 0 created.2) as [[|] db2]; [|done].
  cbn [fst snd] in *. injection Hanswer as <- <-. subst rest.
  rewrite drop_0, app_nil_r in Hsaved. subst saved.
  destruct (buildContacts_Returned _ _ _ _ _ Hbuilt) as [Hlength _].
  destruct (buildContacts_contacts node created.1 fieldMapping (rows parsed) contactsData)
    as (Howner & Hnone & Htext); [|done|].
  { intros field. by apply (validated_keys (fieldMappingRaw req) fieldMapping). }
  assert (Hold : List.filter (ownedBy (campaignSerial db)) (contacts db) = []).
  { apply filter_none. eapply Forall_impl; [exact Hrefs|].
    intros contact (existing & Hid & Hin)%list_elem_of_fmap. unfold ownedBy.
    apply Nat.eqb_neq. eapply Forall_forall in Hserial; [|exact Hin].
    cbn beta in Hserial. lia. }
  assert (Hnew : List.filter (ownedBy (campaignSerial db))
                   (imap (fun k row => {| contactId := contactSerial created.2 + k;
                                          contactRow := row |}) contactsData)
                 = imap (fun k row => {| contactId := contactSerial created.2 + k;
                                         contactRow := row |}) contactsData).
  { apply filter_every, Forall_imap. intros k contact Hk%list_elem_of_lookup_2.
    unfold ownedBy. cbn [contactRow]. eapply Forall_forall in Howner; [|exact Hk].
    rewrite Howner. apply Nat.eqb_refl. }
  assert (Hlisted : List.filter (ownedBy (campaignSerial db)) (contacts db2)
                    = imap (fun k row => {| contactId := contactSerial created.2 + k;
                                            contactRow := row |}) contactsData).
  { rewrite Hcontacts, List.filter_app. change (contacts created.2) with (contacts db).
    by rewrite Hold, Hnew. }
  cbn [c_id c_recordCount].
  split; [done|]. split; [|split; [done|]].
  - unfold getContactsCountByCampaignId. by rewrite Hlisted, length_imap.
  - unfold contactsRoute. cbn [ans_contacts]. unfold getContactsByCampaignId.
    rewrite drop_0, Hlisted, take_ge by (rewrite length_imap; lia).
    rewrite <- list_fmap_compose, fmap_imap, <- Htext.
    rewrite (imap_ext _ (const (fun contact =>
                                  list_to_map
                                    ((fun field =>
                                        (field, fieldOrEmpty (contactFields contact) field))
                                       <$> standardFields)))) by done.
    apply imap_const.
Qed.

Lemma q1Store_wellFormed : storeWellFormed q1Store.
Proof.
  unfold storeWellFormed, q1Store. cbn.
  repeat split; repeat constructor; try lia.
  rewrite elem_of_nil. tauto.
Qed.

(** Two rows uploaded as [Q2 Leads]: the list of the new campaign has
    two contacts. *)
Lemma uploadCampaign_then_list_witness :
  length (ans_contacts
            (contactsRoute 2 None
               (uploadCampaign (node := exampleRuntime) q2Request q1Store).2)) = 2.
Proof.
  destruct (uploadCampaign_then_list exampleRuntime q2Request q1Store q2File
              (<["title" := "skip"]> q2Mapping) q2Parsed q2Campaign 2)
    as (_ & _ & _ & Hlist).
  - exact q1Store_wellFormed.
  - reflexivity.
  - vm_compute. reflexivity.
  - vm_compute. reflexivity.
  - vm_compute. reflexivity.
  - unfold fullListLimit. cbn. lia.
  - apply (f_equal length) in Hlist. rewrite !length_fmap in Hlist. exact Hlist.
Defined.

Lemma saveContacts_wellFormed (node : NodeRuntime) (contactsData : list InsertContact)
    (db : Store) :
  storeWellFormed db ->
  Forall (fun contact => campaignId contact ∈ (c_id <$> campaigns db)) contactsData ->
  storeWellFormed (saveContacts contactsData 0 db).2.
Proof.
  intros (Hids & Hserial & Hcids & Hcserial & Hrefs) Hnew.
  destruct (saveContacts_store node contactsData 0 db)
    as (Hcampaigns & Hcs & (saved & rest & Hsaved & Hcontacts & Hks & _) & _).
  rewrite drop_0 in Hsaved.
  assert (Hsub : Forall (fun contact => campaignId contact ∈ (c_id <$> campaigns db)) saved).
  { rewrite Hsaved in Hnew. by apply Forall_app in Hnew as [Hnew _]. }
  unfold storeWellFormed. rewrite Hcampaigns, Hcs, Hks, Hcontacts.
  split; [done|]. split; [done|]. split; [|split].
  - rewrite fmap_app. apply NoDup_app. split; [done|]. split.
    + intros id (old & -> & Hold)%list_elem_of_fmap (new & Hid & Hin)%list_elem_of_fmap.
      apply elem_of_lookup_imap in Hin as (k & row & -> & _). cbn [contactId] in Hid.
      eapply Forall_forall in Hcserial; [|exact Hold]. cbn beta in Hcserial. lia.
    + rewrite fmap_imap. apply NoDup_alt. intros k1 k2 id H1 H2.
      apply list_lookup_imap_Some in H1 as (row1 & _ & ->).
      apply list_lookup_imap_Some in H2 as (row2 & _ & Heq).
      unfold compose in Heq. cbn [contactId] in Heq. lia.
  - apply Forall_app. split.
    + eapply Forall_impl; [exact Hcserial|]. intros old Hlt. cbn beta in *. lia.
    + apply Forall_imap. intros k row Hk%lookup_lt_Some. cbn [contactId]. lia.
  - apply Forall_app. split; [done|].
    apply Forall_imap. intros k row Hk%list_elem_of_lookup_2. cbn [contactRow].
    by eapply Forall_forall in Hsub.
Qed.

(** X24. The upload route keeps the store consistent: whatever the
    request, a store that keeps its invariants (distinct ids below the
    counters, every contact in a campaign of the store) and in which no
    two campaigns have the same name is such a store again after the
    request. *)
Theorem uploadCampaign_keeps_invariants :
  forall (node : NodeRuntime) (req : UploadRequest) (db : Store),
    storeWellFormed db ->
    NoDup (c_name <$> campaigns db) ->
    storeWellFormed (uploadCampaign req db).2
    /\ NoDup (c_name <$> campaigns (uploadCampaign req db).2).
Proof.
  intros node req db Hwf Hnames.
  destruct (uploadCampaign_cases node req db)
    as [[-> _]|(f & fieldMapping & parsed & _ & _ & _ & Hfresh & _ & Hrun)]; [done|].
  cbv zeta in Hrun. set (insertCampaign := Build_InsertCampaign _ _ _ _ _) in Hrun.
  assert (Hcreated : storeWellFormed (createCampaign insertCampaign db).2)
    by by apply createCampaign_wellFormed.
  assert (Hcnames : NoDup (c_name <$> campaigns (createCampaign insertCampaign db).2)).
  { cbn [createCampaign snd campaigns]. rewrite fmap_app. cbn [fmap list_fmap c_name].
    apply NoDup_app. split; [done|]. split; [|apply NoDup_singleton].
    intros name (existing & -> & Hin)%list_elem_of_fmap Hnew%list_elem_of_singleton.
    apply find_None_Forall in Hfresh. eapply Forall_forall in Hfresh; [|exact Hin].
    cbn beta in Hfresh. apply String.eqb_neq in Hfresh. by apply Hfresh. }
  rewrite Hrun.
  destruct (buildContacts (createCampaign insertCampaign db).1 fieldMapping (rows parsed))
    as [contactsData|[|]] eqn:Hbuilt; [|done..].
  pose proof (saveContacts_wellFormed node contactsData _ Hcreated) as Hsaved.
  destruct (saveContacts_store node contactsData 0 (createCampaign insertCampaign db).2)
    as (Hcampaigns & _).
  assert (Howner : Forall (fun contact =>
                             campaignId contact
                             ∈ (c_id <$> campaigns (createCampaign insertCampaign db).2))
                          contactsData).
  { destruct (buildContacts_Returned _ _ _ _ _ Hbuilt) as [Hlength Hrows].
    apply Forall_forall. intros contact [k Hk]%list_elem_of_lookup.
    assert (Hlt : k < length (rows parsed)) by (rewrite <- Hlength; by eapply lookup_lt_Some).
    apply lookup_lt_is_Some in Hlt as [row Hrow].
    destruct (Hrows k row Hrow) as (contact' & Hk' & Hcontact').
    rewrite Hk in Hk'. injection Hk' as <-.
    apply buildContact_Returned in Hcontact' as [-> _].
    cbn [createCampaign fst snd campaigns c_id]. rewrite fmap_app.
    apply elem_of_app. right. apply list_elem_of_here. }
  specialize (Hsaved Howner).
  destruct (saveContacts contactsData 0 (createCampaign insertCampaign db).2) as [[|] db2];
    cbn [fst snd] in *; by rewrite Hcampaigns.
Qed.

(** The store of [Q1 Leads] after the upload of [Q2 Leads]. *)
Lemma uploadCampaign_keeps_invariants_witness :
  storeWellFormed (uploadCampaign (node := exampleRuntime) q2Request q1Store).2
  /\ NoDup (c_name <$> campaigns (uploadCampaign (node := exampleRuntime) q2Request q1Store).2).
Proof.
  apply (uploadCampaign_keeps_invariants exampleRuntime q2Request q1Store).
  - exact q1Store_wellFormed.
  - cbn. apply NoDup_singleton.
Defined.

(** X25. What the upload route hands to the store: every call of
    [createContacts] made for a request carries between 1 and 100
    contacts; each of them belongs to the campaign just created and has
    only standard fields, none of which is the empty string. *)
Theorem uploadCampaign_batches :
  forall (node : NodeRuntime) (req : UploadRequest) (db : Store),
    exists calls : list (list InsertContact),
      insertCalls (uploadCampaign req db).2 = (insertCalls db ++ calls)%list
      /\ Forall (fun batch =>
                   0 < length batch <= batchSize
                   /\ Forall (fun contact =>
                                campaignId contact = campaignSerial db
                                /\ forall k v, contactFields contact !! k = Some v ->
                                               k ∈ standardFields /\ v <> "")
                             batch)
                calls.
Proof.
  intros node req db.
  destruct (uploadCampaign_cases node req db)
    as [[-> _]|(f & fieldMapping & parsed & _ & _ & Hmapping & _ & _ & Hrun)].
  { exists []. by rewrite app_nil_r. }
  cbv zeta in Hrun. set (insertCampaign := Build_InsertCampaign _ _ _ _ _) in Hrun.
  rewrite Hrun.
  destruct (buildContacts (createCampaign insertCampaign db).1 fieldMapping (rows parsed))
    as [contactsData|error] eqn:Hbuilt.
  2: { exists []. rewrite app_nil_r. by destruct error. }
  destruct (saveContacts_store node contactsData 0 (createCampaign insertCampaign db).2)
    as (_ & _ & _ & (calls & rest & Hcalls & Hconcat & Hsizes) & _).
  exists calls. split.
  { by destruct (saveContacts contactsData 0 (createCampaign insertCampaign db).2) as [[|] db2]. }
  rewrite drop_0 in Hconcat.
  destruct (buildContacts_Returned _ _ _ _ _ Hbuilt) as [Hlength Hrows].
  apply Forall_forall. intros batch Hbatch. split.
  { by eapply Forall_forall in Hsizes. }
  apply Forall_forall. intros contact Hcontact.
  assert (Hin : contact ∈ contactsData).
  { rewrite Hconcat. apply elem_of_app. left.
    apply list_elem_of_In, in_concat. exists batch. by rewrite <- !list_elem_of_In. }
  apply list_elem_of_lookup in Hin as [index Hindex].
  assert (Hlt : index < length (rows parsed))
    by (rewrite <- Hlength; by eapply lookup_lt_Some).
  apply lookup_lt_is_Some in Hlt as [row Hrow].
  destruct (Hrows index row Hrow) as (contact' & Hindex' & Hcontact').
  rewrite Hindex in Hindex'. injection Hindex' as <-.
  apply buildContact_Returned in Hcontact' as [Howner Hfields].
  split; [done|]. intros k v Hv.
  apply (parseContactFields_Some _ _ Hfields) in Hv as [Hk Hv].
  split; [done|]. rewrite transformRow_lookup in Hv.
  destruct (decide _); [done|].
  destruct (fieldMapping !! k) as [csvColumn|]; [|done]. cbn in Hv.
  apply mappedCell_Some in Hv as (_ & _ & _ & Hvalue). by intros ->.
Qed.

(** The upload of [Q2 Leads] when the cipher throws, and when the
    database refuses the contacts: the answer is the status 500, and the
    campaign stays in the store without any contact. *)
Lemma uploadCampaign_error_keeps_campaign :
  (uploadCampaign (node := cipherlessRuntime) q2Request q1Store).1
  = Status500 "Failed to upload campaign"
  /\ campaigns (uploadCampaign (node := cipherlessRuntime) q2Request q1Store).2
     = (campaigns q1Store ++ [q2Campaign])%list
  /\ contacts (uploadCampaign (node := cipherlessRuntime) q2Request q1Store).2 = []
  /\ (uploadCampaign (node := refusingRuntime) q2Request q1Store).1
     = Status500 "Failed to upload campaign"
  /\ campaigns (uploadCampaign (node := refusingRuntime) q2Request q1Store).2
     = (campaigns q1Store ++ [q2Campaign])%list
  /\ contacts (uploadCampaign (node := refusingRuntime) q2Request q1Store).2 = []
  /\ length <$> insertCalls (uploadCampaign (node := refusingRuntime) q2Request q1Store).2
     = [2].
Proof. repeat split; vm_compute; reflexivity. Qed.

(** *** When the upload succeeds *)

Lemma collect_all_Returned {A} (results : list (outcome A)) :
  Forall (fun result => exists value, result = Returned value) results ->
  exists values, collect results = Returned values.
Proof.
  induction 1 as [|result results [value ->] _ [values IH]]; [by exists []|].
  exists (value :: values). cbn [collect]. by rewrite IH.
Qed.

Lemma saveContacts_completes (node : NodeRuntime) contactsData i db :
  (forall db' batch, insertThrows db' batch = false) ->
  (saveContacts contactsData i db).1 = true.
Proof.
  intros Hquiet. funelim (saveContacts contactsData i db); [|done].
  rewrite Hquiet. by apply H.
Qed.

(** No field is set to a member of [Object.prototype] when no column of
    the mapping has the name of one. *)
Lemma transformRow_plain (fieldMapping row : gmap string string) :
  map_Forall (fun _ csvColumn => csvColumn ∉ objectPrototypeKeys) fieldMapping ->
  forall field name, transformRow fieldMapping row !! field <> Some (PrototypeMember name).
Proof.
  intros Hcolumns field name. rewrite transformRow_lookup.
  destruct (decide _); [done|].
  destruct (fieldMapping !! field) as [csvColumn|] eqn:Hfield; [|done]. cbn.
  intros (_ & _ & Hcell & _)%mappedCell_Some.
  apply getProperty_PrototypeMember in Hcell as (_ & Hin & _).
  by apply (Hcolumns field csvColumn).
Qed.

(** X27. A request that passes every check, in a run in which neither
    the cipher nor the database throws, and in which no field of a row
    is set to a member of [Object.prototype]: the answer is a success,
    one campaign is created with the number of parsed rows as its record
    count, and one contact per row is stored, in the order of the
    rows. *)
Theorem uploadCampaign_persists_rows :
  forall (node : NodeRuntime) (req : UploadRequest) (db : Store)
         (f : UploadedFile) (fieldMapping : gmap string string) (parsed : ParsedCsv),
  file req = Some f ->
  campaignName req <> "" ->
  fieldMappingRaw req ≫= fieldMappingSchema_parse = Some fieldMapping ->
  getCampaignByName (campaignName req) db = None ->
  parseCSV (buffer f) = Resolved parsed ->
  (forall text, cipherThrows text = false) ->
  (forall db' batch, insertThrows db' batch = false) ->
  Forall (fun row => forall field name,
                       transformRow fieldMapping row !! field <> Some (PrototypeMember name))
         (rows parsed) ->
  exists campaign contactsData,
    (uploadCampaign req db).1 = Uploaded campaign (length (rows parsed))
    /\ c_name campaign = campaignName req
    /\ c_recordCount campaign = length (rows parsed)
    /\ campaigns (uploadCampaign req db).2 = (campaigns db ++ [campaign])%list
    /\ buildContacts campaign fieldMapping (rows parsed) = Returned contactsData
    /\ contactRow <$> contacts (uploadCampaign req db).2
       = ((contactRow <$> contacts db) ++ contactsData)%list.
Proof.
  intros node req db f fieldMapping parsed
    Hfile Hname Hmapping Hfresh Hparsed Hcipher Hquiet Hplain.
  assert (Hkeys : forall field, is_Some (fieldMapping !! field) -> field ∈ standardFields).
  { intros field. by apply (validated_keys (fieldMappingRaw req) fieldMapping). }
  unfold uploadCampaign. rewrite Hfile.
  apply truthy_spec in Hname. rewrite Hname. cbn [negb].
  destruct (fieldMappingRaw req) as [raw|]; [|done]. cbn in Hmapping.
  rewrite Hmapping, Hfresh, Hparsed. cbn [createCampaign].
  set (campaign := Build_Campaign _ _ _ _ _ _ _ _). set (db1 := Build_Store _ _ _ _ _ _).
  destruct (collect_all_Returned (imap (buildContact campaign fieldMapping) (rows parsed)))
    as [contactsData Hbuilt].
  { apply Forall_imap. intros k row Hrow%list_elem_of_lookup_2.
    eapply Forall_forall in Hplain; [|exact Hrow].
    pose proof (buildContact_cases node campaign k fieldMapping row Hkeys) as Hcases.
    cbv zeta in Hcases. rewrite Hcipher in Hcases.
    destruct Hcases as [[(field & name & Hfield) _]|[_ (fields & _ & ->)]].
    - by destruct (Hplain field name).
    - by eexists. }
  exists campaign, contactsData. unfold buildContacts. rewrite Hbuilt.
  pose proof (saveContacts_completes node contactsData 0 db1 Hquiet) as Hdone.
  destruct (saveContacts_store node contactsData 0 db1)
    as (Hcampaigns & _ & (saved & rest & Hsaved & Hcontacts & _ & Hrest) & _).
  destruct (saveContacts contactsData 0 db1) as [[|] db2]; [|done].
  cbn [fst snd] in *. subst rest. rewrite drop_0, app_nil_r in Hsaved. subst saved.
  rewrite Hcampaigns, Hcontacts. repeat split.
  rewrite fmap_app, fmap_imap. f_equal.
  rewrite (imap_ext _ (const id)) by done. by rewrite imap_const, list_fmap_id.
Qed.

(** The upload of [Q2 Leads]: a success with two contacts. *)
Lemma uploadCampaign_persists_rows_witness :
  exists campaign contactsData,
    (uploadCampaign (node := exampleRuntime) q2Request q1Store).1 = Uploaded campaign 2
    /\ c_name campaign = "Q2 Leads"
    /\ length contactsData = 2
    /\ contactRow <$> contacts (uploadCampaign (node := exampleRuntime) q2Request q1Store).2
       = contactsData.
Proof.
  destruct (uploadCampaign_persists_rows exampleRuntime q2Request q1Store q2File
              (<["title" := "skip"]> q2Mapping) q2Parsed)
    as (campaign & contactsData & Hanswer & Hname & _ & _ & Hbuilt & Hstored).
  - reflexivity.
  - discriminate.
  - vm_compute. reflexivity.
  - reflexivity.
  - vm_compute. reflexivity.
  - reflexivity.
  - reflexivity.
  - assert (Hplain : forall row field name,
               transformRow (<["title" := "skip"]> q2Mapping) row !! field
               <> Some (PrototypeMember name)).
    { intros row. apply transformRow_plain.
      apply (bool_decide_unpack
               (map_Forall (fun (_ : string) (csvColumn : string) =>
                              csvColumn ∉ objectPrototypeKeys)
                           (<["title" := "skip"]> q2Mapping))).
      vm_compute. exact I. }
    constructor; [apply Hplain|]. constructor; [apply Hplain|]. constructor.
  - exists campaign, contactsData. split; [exact Hanswer|]. split; [exact Hname|].
    split; [|exact Hstored].
    by apply buildContacts_Returned in Hbuilt as [-> _].
Defined.

(** ** The clipboard text *)

(** X26. The text of [copyToClipboard]: when no cell contains a tab or
    a newline, cutting the text at the newlines and each line at the
    tabs gives the header row followed by the eleven cells of every
    contact, in order. *)
Theorem tsvContent_split :
  forall contacts : list ProcessedContact,
    Forall (fun contact =>
              Forall (fun cell => hasChar tab cell = false /\ hasChar newline cell = false)
                     (exportCells contact))
           contacts ->
    split tab <$> split newline (tsvContent contacts)
    = exportHeaders :: (exportCells <$> contacts).
Proof.
  intros contacts Hplain. unfold tsvContent.
  set (allRows := exportHeaders :: (exportCells <$> contacts)).
  assert (Hrows : Forall (fun row =>
                            row <> []
                            /\ Forall (fun cell => hasChar tab cell = false
                                                   /\ hasChar newline cell = false) row)
                         allRows).
  { constructor; [split; [done|by repeat constructor]|].
    apply Forall_fmap. eapply Forall_impl; [exact Hplain|]. by intros contact Hcells. }
  rewrite (split_joinWith newline).
  - rewrite <- list_fmap_compose. rewrite <- (list_fmap_id allRows) at 2.
    apply Forall_fmap_ext_1. eapply Forall_impl; [exact Hrows|].
    intros row [Hne Hcells]. unfold compose. apply split_joinWith; [done|].
    eapply Forall_impl; [exact Hcells|]. by intros cell [Htab _].
  - done.
  - apply Forall_fmap. eapply Forall_impl; [exact Hrows|].
    intros row [_ Hcells]. unfold compose. apply joinWith_hasChar; [done|].
    eapply Forall_impl; [exact Hcells|]. by intros cell [_ Hnl].
Qed.

(** One contact, copied and cut again. *)
Lemma tsvContent_split_witness :
  split tab <$> split newline (tsvContent [annContact])
  = [exportHeaders; exportCells annContact].
Proof.
  apply (tsvContent_split [annContact]). repeat constructor.
Defined.
